(** * Marketplace backend (app.py): schema migrations, image intake and the
      product-creation workflow, embedded as pure state-passing functions.

    The relational engine (SQLite through Python's [sqlite3]) and the upload
    directory are modelled as explicit state.  Python exceptions are values of
    [exn]; a function that can raise returns the state it leaves behind
    together with the exception. *)

From Stdlib Require Import Strings.Byte Strings.Ascii Strings.String NArith ZArith.
From stdpp Require Import gmap strings list fin_maps sorting.

#[local] Set Warnings "-clear-no-such-hyp".

Open Scope Z_scope.

(** ** Python exceptions that the program can meet *)

(** [except ValueError] catches [ValueError] only; Pillow's
    [UnidentifiedImageError] derives from [OSError], the [sqlite3] errors
    from [sqlite3.Error], [OtherError] stands for any further class that is
    not a [ValueError]. *)
Inductive exn :=
| ValueError (msg : string)
| UnidentifiedImageError
| OperationalError (msg : string)
| IntegrityError (msg : string)
| OtherError (cls : string).

Definition is_ValueError (e : exn) : bool :=
  match e with ValueError _ => true | _ => false end.

(** * Schema migrations ([init_db]) *)

Module Migration.

(** An index: the table it is on, its columns, and whether it is UNIQUE. *)
Record index := { ix_table : string; ix_cols : list string; ix_unique : bool }.

(** The part of the disk [init_db] works on: the upload directory, the
    schema objects of the database file, and the rows of the ledger table
    [schema_migrations] (in insertion order).  Rows of the other tables are
    not touched by any statement of [init_db] and are left out; a UNIQUE
    index is therefore created without looking at existing rows. *)
Record state := {
  upload_dir : bool;
  tables : gmap string (list string);
  indexes : gmap string index;
  ledger : list Z
}.

Definition with_tables (s : state) (t : gmap string (list string)) : state :=
  {| upload_dir := upload_dir s; tables := t; indexes := indexes s; ledger := ledger s |}.
Definition with_indexes (s : state) (i : gmap string index) : state :=
  {| upload_dir := upload_dir s; tables := tables s; indexes := i; ledger := ledger s |}.
Definition with_ledger (s : state) (l : list Z) : state :=
  {| upload_dir := upload_dir s; tables := tables s; indexes := indexes s; ledger := l |}.

(** Result of running statements on a connection: the durable state, and the
    exception if one was raised ([init_db] closes the connection in
    [finally], which drops whatever was not committed). *)
Inductive run :=
| Ok (s : state)
| Fail (e : exn) (s : state).

Definition bind (r : run) (k : state -> run) : run :=
  match r with
  | Ok s => k s
  | Fail e s => Fail e s
  end.

Notation "r >>= k" := (bind r k) (at level 50, left associativity).

(** [os.makedirs(UPLOAD_DIR, exist_ok=True)] *)
Definition makedirs (s : state) : state :=
  {| upload_dir := true; tables := tables s; indexes := indexes s; ledger := ledger s |}.

(** The rows of the ledger table: none while the table does not exist. *)
Definition recorded (s : state) : list Z :=
  match tables s !! "schema_migrations" with
  | Some _ => ledger s
  | None => []
  end.

(** [CREATE TABLE IF NOT EXISTS name (cols)]; a table that has just been
    created has no rows. *)
Definition create_table_if_not_exists (name : string) (cols : list string) (s : state) : run :=
  match tables s !! name with
  | Some _ => Ok s
  | None =>
      match indexes s !! name with
      | Some _ => Fail (OperationalError "there is already an index with that name") s
      | None =>
          Ok {| upload_dir := upload_dir s;
                tables := <[name := cols]> (tables s);
                indexes := indexes s;
                ledger := if bool_decide (name = "schema_migrations") then [] else ledger s |}
      end
  end.

(** [CREATE [UNIQUE] INDEX IF NOT EXISTS name ON table(cols)] *)
Definition create_index_if_not_exists
    (name table : string) (cols : list string) (uniq : bool) (s : state) : run :=
  match tables s !! table with
  | None => Fail (OperationalError "no such table") s
  | Some tcols =>
      match tables s !! name with
      | Some _ => Fail (OperationalError "there is already a table with that name") s
      | None =>
          match indexes s !! name with
          | Some _ => Ok s
          | None =>
              if forallb (fun c => bool_decide (c ∈ tcols)) cols
              then Ok (with_indexes s
                         (<[name := {| ix_table := table; ix_cols := cols; ix_unique := uniq |}]>
                            (indexes s)))
              else Fail (OperationalError "no such column") s
          end
      end
  end.

(** [PRAGMA table_info(table)]: the column names, none for a missing table *)
Definition table_info (table : string) (s : state) : list string :=
  default [] (tables s !! table).

(** [ALTER TABLE table ADD COLUMN col] *)
Definition alter_table_add_column (table col : string) (s : state) : run :=
  match tables s !! table with
  | None => Fail (OperationalError "no such table") s
  | Some tcols =>
      if bool_decide (col ∈ tcols)
      then Fail (OperationalError "duplicate column name") s
      else Ok (with_tables s (<[table := tcols ++ [col]]> (tables s)))
  end.

(** [SELECT version FROM schema_migrations ORDER BY version], as the set the
    comprehension builds from it: only membership is ever asked of it. *)
Definition applied_versions (s : state) : exn + list Z :=
  match tables s !! "schema_migrations" with
  | None => inl (OperationalError "no such table")
  | Some cols =>
      if bool_decide ("version" ∈ cols) then inr (ledger s)
      else inl (OperationalError "no such column")
  end.

(** [INSERT INTO schema_migrations (version) VALUES (?)]; [version] is the
    INTEGER PRIMARY KEY *)
Definition insert_version (version : Z) (s : state) : run :=
  match applied_versions s with
  | inl e => Fail e s
  | inr vs =>
      if bool_decide (version ∈ vs)
      then Fail (IntegrityError "UNIQUE constraint failed: schema_migrations.version") s
      else Ok (with_ledger s (vs ++ [version]))
  end.

Definition migration_v1 (s : state) : run :=
  create_table_if_not_exists "products"
    ["id"; "name"; "price"; "details"; "created_at"] s.

Definition migration_v2 (s : state) : run :=
  create_table_if_not_exists "sellers"
    ["id"; "name"; "whatsapp"; "pin_hash"; "created_at"] s
  >>= create_index_if_not_exists "idx_sellers_whatsapp" "sellers" ["whatsapp"] true.

Definition migration_v3 (s : state) : run :=
  let colnames := table_info "products" s in
  (if bool_decide ("seller_id" ∈ colnames) then Ok s
   else alter_table_add_column "products" "seller_id" s)
  >>= create_index_if_not_exists "idx_products_seller_id" "products" ["seller_id"] false.

(** The FOREIGN KEY clause names [products(id)]; SQLite resolves the parent
    table when rows are written, not when the child table is created. *)
Definition migration_v4 (s : state) : run :=
  create_table_if_not_exists "product_images"
    ["id"; "product_id"; "filename"; "sort_order"; "created_at"] s
  >>= create_index_if_not_exists "idx_product_images_product_id" "product_images"
        ["product_id"] false.

(** What a run does, in order: a step's action was executed, a version was
    written to the ledger, the connection was committed. *)
Inductive event :=
| Exec (version : Z)
| Recorded (version : Z)
| Commit.

(** The nested function [apply(version, fn)].  The DDL of [fn] is durable
    as soon as it ran (no transaction is open), the ledger row when the
    commit after it returns. *)
Definition apply (version : Z) (fn : state -> run) (s : state) : run * list event :=
  match applied_versions s with
  | inl e => (Fail e s, [])
  | inr vs =>
      if bool_decide (version ∈ vs) then (Ok s, [])
      else
        match fn s with
        | Fail e s1 => (Fail e s1, [Exec version])
        | Ok s1 =>
            match insert_version version s1 with
            | Fail e s2 => (Fail e s2, [Exec version])
            | Ok s2 => (Ok s2, [Exec version; Recorded version; Commit])
            end
        end
  end.

(** A sequence of [apply] statements, run in the order in which they are
    written; an exception ends the sequence. *)
Fixpoint apply_in_order (steps : list (Z * (state -> run))) (s : state) : run * list event :=
  match steps with
  | [] => (Ok s, [])
  | (version, fn) :: rest =>
      match apply version fn s with
      | (Fail e s1, t) => (Fail e s1, t)
      | (Ok s1, t) =>
          let '(r, t') := apply_in_order rest s1 in (r, t ++ t')
      end
  end.

(** The four [apply] calls at the end of [init_db], as written. *)
Definition steps : list (Z * (state -> run)) :=
  [(1, migration_v1); (2, migration_v2); (3, migration_v3); (4, migration_v4)].

(** The body of [init_db] around its [apply] statements: the upload
    directory, the ledger table and its commit, then the statements. *)
Definition init_db_with (calls : list (Z * (state -> run))) (s : state) : run * list event :=
  match create_table_if_not_exists "schema_migrations" ["version"] (makedirs s) with
  | Fail e s1 => (Fail e s1, [])
  | Ok s1 =>
      let '(r, t) := apply_in_order calls s1 in (r, Commit :: t)
  end.

Definition init_db (s : state) : run * list event := init_db_with steps s.

(** A database file that does not exist yet. *)
Definition fresh : state :=
  {| upload_dir := false; tables := ∅; indexes := ∅; ledger := [] |}.



(** The state a run ends in. *)
Definition final (r : run) : state :=
  match r with Ok s => s | Fail _ s => s end.

(** The state [init_db] leaves on a new database file. *)
Definition migrated : state := final (init_db fresh).1.

(** What [init_db] logs for one version, given the ledger it started from:
    nothing for a version recorded there. *)
Definition events_for (before : list Z) (version : Z) : list event :=
  if bool_decide (version ∈ before) then []
  else [Exec version; Recorded version; Commit].

(** The ledger table exists and has its [version] column. *)
Definition ready (s : state) : Prop :=
  exists cols, tables s !! "schema_migrations" = Some cols /\ "version" ∈ cols.

(** A statement that leaves the ledger table, its rows and the upload
    directory alone. *)
Definition keeps (fn : state -> run) : Prop :=
  forall s s', fn s = Ok s' ->
    ready s -> ready s' /\ ledger s' = ledger s /\ upload_dir s' = upload_dir s.

End Migration.

(** * Python values the request handlers work on *)

(** A Python [str] is a sequence of Unicode code points; [bytes] a sequence
    of bytes.  Names the program generates itself (upload file names, image
    format tags, extensions) are ASCII and are kept as [string]. *)
Abbreviation str := (list N).
Abbreviation bytes := (list Byte.byte).

(** A [str] literal. *)
Definition py (s : string) : str := Ascii.N_of_ascii <$> String.list_ascii_of_string s.

(** A Python [float] as far as the program looks at it: NaN, an infinity, or
    the finite value [m * 2^e]. *)
Inductive pyfloat :=
| FNan
| FInf (negative : bool)
| FNum (m e : Z).

(** [x < 0] on floats; every comparison with NaN is false. *)
Definition float_lt0 (x : pyfloat) : bool :=
  match x with
  | FNan => false
  | FInf negative => negative
  | FNum m _ => m <? 0
  end.

(** Library functions the handlers call and this repository does not
    define.  They are fixed, pure functions of their argument:
    - [isdigit_cp], [isspace_cp]: [str.isdigit] and [str.isspace] on one
      character (the Unicode database);
    - [float_of_str]: [float(s)], [None] when it raises [ValueError];
    - [check_password_hash]: werkzeug's check of a PIN against a hash;
    - [pil_probe]: Pillow's [Image.open(stream)], then [img.verify()], then
      [img.format]: the exception one of the first two raises, or the
      format tag (which can be [None]). *)
Class Builtins := {
  isdigit_cp : N -> bool;
  isspace_cp : N -> bool;
  float_of_str : str -> option pyfloat;
  check_password_hash : str -> str -> bool;
  pil_probe : bytes -> exn + option string
}.

(** What the Unicode database guarantees about the characters
    [normalize_whatsapp] singles out: no digit is white space, ['+'] is
    neither, [' '] is white space. *)
Class UnicodeLaws `{Builtins} : Prop := {
  digit_not_space : forall c, isdigit_cp c = true -> isspace_cp c = false;
  plus_not_digit : isdigit_cp 43%N = false;
  plus_not_space : isspace_cp 43%N = false;
  space_is_space : isspace_cp 32%N = true
}.

Section text.
Context `{Builtins}.

Fixpoint lstrip (s : str) : str :=
  match s with
  | c :: rest => if isspace_cp c then lstrip rest else s
  | [] => []
  end.

Definition rstrip (s : str) : str := reverse (lstrip (reverse s)).

(** [s.strip()] *)
Definition strip (s : str) : str := rstrip (lstrip s).

(** [s.replace(" ", "")] *)
Definition remove_spaces (s : str) : str := filter (fun c => c ≠ 32%N) s.

(** ["".join(ch for ch in s if ch.isdigit())] *)
Definition digits_of (s : str) : str := filter (fun c => isdigit_cp c = true) s.

(** [s.startswith(prefix)] *)
Definition startswith (s prefix : str) : bool :=
  bool_decide (take (length prefix) s = prefix).

(** [s.isdigit()]: every character is a digit and there is at least one *)
Definition isdigit (s : str) : bool :=
  match s with
  | [] => false
  | _ => forallb isdigit_cp s
  end.

(** [normalize_whatsapp(s)]; callers pass [x or ""], never [None]. *)
Definition normalize_whatsapp (s : str) : str :=
  let s := remove_spaces (strip s) in
  if startswith s (py "+") then py "+" ++ digits_of (drop 1 s)
  else digits_of s.

(** [len(s)] *)
Definition len (s : str) : Z := Z.of_nat (length s).

Definition all_digits (s : str) : Prop := Forall (fun c => isdigit_cp c = true) s.
Definition no_space (s : str) : Prop := Forall (fun c => isspace_cp c = false) s.

(** Digits only, or ['+'] and then digits only. *)
Definition canonical (s : str) : Prop :=
  all_digits s \/ exists rest, s = 43%N :: rest /\ all_digits rest.

End text.

(** [s.upper()] on the ASCII letters image format tags are made of *)
Definition upper_ascii (c : ascii) : ascii :=
  let n := nat_of_ascii c in
  if (97 <=? n)%nat && (n <=? 122)%nat then ascii_of_nat (n - 32) else c.

Fixpoint upper (s : string) : string :=
  match s with
  | EmptyString => EmptyString
  | String c rest => String (upper_ascii c) (upper rest)
  end.

(** * The resource store, image intake and the request handlers *)

Module Store.

(** ** Rows *)

Record seller := {
  s_id : Z;
  s_name : str;
  s_whatsapp : str;
  s_pin_hash : str;
  s_created_at : str
}.

(** [seller_id] was added by [ALTER TABLE ... ADD COLUMN seller_id INTEGER]:
    it is nullable and carries no FOREIGN KEY clause. *)
Record product := {
  p_id : Z;
  p_name : str;
  p_price : pyfloat;
  p_details : str;
  p_created_at : str;
  p_seller_id : option Z
}.

Record product_image := {
  i_id : Z;
  i_product_id : Z;
  i_filename : string;
  i_sort_order : Z;
  i_created_at : str
}.

(** The three tables in rowid order, and the [sqlite_sequence] counters of
    their AUTOINCREMENT keys. *)
Record database := {
  sellers : list seller;
  products : list product;
  product_images : list product_image;
  seq_sellers : Z;
  seq_products : Z;
  seq_product_images : Z
}.

(** The database file together with the upload directory. *)
Record world := {
  db : database;
  files : gmap string bytes
}.

(** An AUTOINCREMENT key: one more than the largest rowid the table has or
    ever had. *)
Definition next_rowid (seq : Z) (ids : list Z) : Z := foldr Z.max seq ids + 1.

(** [INSERT INTO sellers ...]; [idx_sellers_whatsapp] is UNIQUE. *)
Definition insert_seller (name whatsapp pin_hash created_at : str) (d : database)
  : exn + (Z * database) :=
  if bool_decide (whatsapp ∈ s_whatsapp <$> sellers d)
  then inl (IntegrityError "UNIQUE constraint failed: sellers.whatsapp")
  else
    let id := next_rowid (seq_sellers d) (s_id <$> sellers d) in
    inr (id,
         {| sellers := sellers d ++
              [{| s_id := id; s_name := name; s_whatsapp := whatsapp;
                  s_pin_hash := pin_hash; s_created_at := created_at |}];
            products := products d;
            product_images := product_images d;
            seq_sellers := id;
            seq_products := seq_products d;
            seq_product_images := seq_product_images d |}).

(** [INSERT INTO products ...] *)
Definition insert_product (name : str) (price : pyfloat) (details created_at : str)
    (seller_id : option Z) (d : database) : Z * database :=
  let id := next_rowid (seq_products d) (p_id <$> products d) in
  (id,
   {| sellers := sellers d;
      products := products d ++
        [{| p_id := id; p_name := name; p_price := price; p_details := details;
            p_created_at := created_at; p_seller_id := seller_id |}];
      product_images := product_images d;
      seq_sellers := seq_sellers d;
      seq_products := id;
      seq_product_images := seq_product_images d |}).

(** [INSERT INTO product_images ...]; the connection has
    [PRAGMA foreign_keys = ON], so the parent product must exist. *)
Definition insert_product_image (product_id : Z) (filename : string) (sort_order : Z)
    (created_at : str) (d : database) : exn + database :=
  if bool_decide (product_id ∈ p_id <$> products d)
  then
    let id := next_rowid (seq_product_images d) (i_id <$> product_images d) in
    inr {| sellers := sellers d;
           products := products d;
           product_images := product_images d ++
             [{| i_id := id; i_product_id := product_id; i_filename := filename;
                 i_sort_order := sort_order; i_created_at := created_at |}];
           seq_sellers := seq_sellers d;
           seq_products := seq_products d;
           seq_product_images := id |}
  else inl (IntegrityError "FOREIGN KEY constraint failed").

(** [DELETE FROM products WHERE id=?], with the ON DELETE CASCADE of
    [product_images.product_id]. *)
Definition delete_product_row (product_id : Z) (d : database) : database :=
  {| sellers := sellers d;
     products := filter (fun p => p_id p ≠ product_id) (products d);
     product_images := filter (fun r => i_product_id r ≠ product_id) (product_images d);
     seq_sellers := seq_sellers d;
     seq_products := seq_products d;
     seq_product_images := seq_product_images d |}.

(** [os.remove] inside [try ... except OSError: pass]: a missing file is
    passed over. *)
Definition remove_files (names : list string) (fls : gmap string bytes) : gmap string bytes :=
  foldl (fun m fn => delete fn m) fls names.

(** What [PRAGMA foreign_keys = ON] maintains: every image row belongs to
    a product row. *)
Definition images_have_product (d : database) : Prop :=
  forall r, r ∈ product_images d -> i_product_id r ∈ p_id <$> products d.

(** Every product whose [seller_id] is set refers to a seller row. *)
Definition sellers_exist (d : database) : Prop :=
  forall p seller_id,
    p ∈ products d -> p_seller_id p = Some seller_id -> seller_id ∈ s_id <$> sellers d.

(** ** Image intake *)

(** A werkzeug [FileStorage]: the client's file name and declared content
    type, and the uploaded bytes. *)
Record FileStorage := {
  filename : str;
  content_type : str;
  stream : bytes
}.

Definition ALLOWED_IMAGE_EXTS : list string := [".jpg"; ".jpeg"; ".png"; ".webp"].

(** What a call does: return a value, raise, or stay in its loop (the
    random names supplied were all taken). *)
Inductive outcome (A : Type) :=
| Returns (a : A)
| Raises (e : exn)
| Spins.
Arguments Returns {A} a.
Arguments Raises {A} e.
Arguments Spins {A}.

Section handlers.
Context `{Builtins}.

(** Only the bytes are looked at. *)
Definition _sniff_and_get_ext (file_storage : FileStorage) : exn + string :=
  match pil_probe (stream file_storage) with
  | inl e => inl e
  | inr format =>
      let fmt := upper (default "" format) in
      if bool_decide (fmt = "JPEG") then inr ".jpg"
      else if bool_decide (fmt = "PNG") then inr ".png"
      else if bool_decide (fmt = "WEBP") then inr ".webp"
      else inl (ValueError "Unsupported image format")
  end.

(** The bytes decode, and as an image of one of the three accepted
    formats. *)
Definition decodes_as_allowed (content : bytes) : Prop :=
  exists fmt, pil_probe content = inr (Some fmt) /\ upper fmt ∈ ["JPEG"; "PNG"; "WEBP"].

(** The name generation of [save_upload_image]: [draws] are the values
    [uuid.uuid4().hex] yields, in order; a name is drawn and drawn again
    while a file of that name exists. *)
Fixpoint unused_name (ext : string) (draws : list string) (fls : gmap string bytes)
  : option (string * list string) :=
  match draws with
  | [] => None
  | hex :: rest =>
      let filename := hex +:+ ext in
      if bool_decide (is_Some (fls !! filename)) then unused_name ext rest fls
      else Some (filename, rest)
  end.

(** Returns the outcome, the draws left, and the upload directory. *)
Definition save_upload_image (file_storage : FileStorage) (draws : list string)
    (fls : gmap string bytes) : outcome string * list string * gmap string bytes :=
  match _sniff_and_get_ext file_storage with
  | inl e => (Raises e, draws, fls)
  | inr ext =>
      if bool_decide (ext ∈ ALLOWED_IMAGE_EXTS) then
        match unused_name ext draws fls with
        | None => (Spins, [], fls)
        | Some (filename, rest) =>
            (Returns filename, rest, <[filename := stream file_storage]> fls)
        end
      else (Raises (ValueError "Unsupported image type"), draws, fls)
  end.

(** [len(files)] *)
Definition len_list {A} (l : list A) : Z := Z.of_nat (length l).

(** ** Sessions *)

(** The signed session cookie of a client, as far as the handlers use it:
    the value under ["seller_id"], if any.  The handlers only ever store the
    integer key of a seller row there. *)
Definition current_seller_id (session : option Z) : option Z := session.

(** [if not seller_id]: [None] and [0] are both falsy. *)
Definition logged_in (session : option Z) : option Z :=
  match current_seller_id session with
  | Some seller_id => if bool_decide (seller_id = 0) then None else Some seller_id
  | None => None
  end.

(** ** Registration and login *)

(** The JSON body; an absent or null field is [None] and is read as [""]. *)
Record seller_form := {
  sf_name : option str;
  sf_whatsapp : option str;
  sf_pin : option str
}.

Inductive register_result :=
| RegInvalid (error : string)                       (* 400 *)
| RegConflict                                       (* 409 *)
| RegCreated (id : Z) (name whatsapp created_at : str).  (* 201 *)

(** [created_at] is what [now_utc()] returns, [pin_hash] what the salted
    [generate_password_hash(pin)] returns during this request. *)
Definition sellers_register (data : seller_form) (created_at pin_hash : str)
    (session : option Z) (d : database) : register_result * option Z * database :=
  let name := strip (default [] (sf_name data)) in
  let whatsapp := normalize_whatsapp (default [] (sf_whatsapp data)) in
  let pin := strip (default [] (sf_pin data)) in
  if bool_decide (len name < 2) || bool_decide (len name > 60)
  then (RegInvalid "Invalid name", session, d)
  else if bool_decide (whatsapp = []) || bool_decide (len whatsapp < 10)
  then (RegInvalid "Invalid WhatsApp", session, d)
  else if negb (isdigit pin) || negb (bool_decide (4 <= len pin <= 8))
  then (RegInvalid "PIN must be 4-8 digits", session, d)
  else
    match insert_seller name whatsapp pin_hash created_at d with
    | inl _ => (RegConflict, session, d)
    | inr (seller_id, d') =>
        (RegCreated seller_id name whatsapp created_at, Some seller_id, d')
    end.

(** The name and the PIN of a registration pass their checks. *)
Definition fields_ok (data : seller_form) : Prop :=
  2 <= len (strip (default [] (sf_name data))) <= 60 /\
  isdigit (strip (default [] (sf_pin data))) = true /\
  4 <= len (strip (default [] (sf_pin data))) <= 8.

Inductive login_result :=
| LoginBadRequest                                   (* 400 *)
| LoginInvalidCredentials                           (* 401 *)
| LoginOk (id : Z) (name whatsapp created_at : str).     (* 200 *)

Definition sellers_login (data : seller_form) (session : option Z) (d : database)
  : login_result * option Z :=
  let whatsapp := normalize_whatsapp (default [] (sf_whatsapp data)) in
  let pin := strip (default [] (sf_pin data)) in
  if bool_decide (whatsapp = []) || bool_decide (pin = [])
  then (LoginBadRequest, session)
  else
    match List.find (fun s => bool_decide (s_whatsapp s = whatsapp)) (sellers d) with
    | None => (LoginInvalidCredentials, session)
    | Some row =>
        if check_password_hash (s_pin_hash row) pin
        then (LoginOk (s_id row) (s_name row) (s_whatsapp row) (s_created_at row),
              Some (s_id row))
        else (LoginInvalidCredentials, session)
    end.

Definition sellers_logout (session : option Z) : option Z := None.

(** ** Products *)

(** What a product is sent back as: its columns, the seller it joins with,
    and the URLs of its images. *)
Record product_view := {
  v_id : Z;
  v_name : str;
  v_price : pyfloat;
  v_details : str;
  v_created_at : str;
  v_seller_id : option Z;
  v_seller : option (Z * option str * option str);
  v_images : list string
}.

(** [LEFT JOIN sellers s ON s.id = p.seller_id] for one product row *)
Definition joined_seller (p : product) (d : database) : option seller :=
  match p_seller_id p with
  | Some sid => List.find (fun s => bool_decide (s_id s = sid)) (sellers d)
  | None => None
  end.

Definition product_to_dict (row : product * option seller)
    (images_by_product_id : gmap Z (list string)) : product_view :=
  let '(p, s) := row in
  let seller :=
    match p_seller_id p with
    | Some sid =>
        if bool_decide (sid = 0) then None
        else Some (sid, s_name <$> s, s_whatsapp <$> s)
    | None => None
    end in
  let imgs := default [] (images_by_product_id !! p_id p) in
  {| v_id := p_id p; v_name := p_name p; v_price := p_price p;
     v_details := p_details p; v_created_at := p_created_at p;
     v_seller_id := p_seller_id p; v_seller := seller;
     v_images := (fun fn => "/uploads/" +:+ fn) <$> imgs |}.

(** [ORDER BY p.id DESC] *)
Definition id_desc (a b : product) : Prop := p_id b <= p_id a.

(** [ORDER BY sort_order ASC, id ASC] *)
Definition image_order (a b : product_image) : Prop :=
  i_sort_order a < i_sort_order b \/
  (i_sort_order a = i_sort_order b /\ i_id a <= i_id b).

#[export] Instance id_desc_dec a b : Decision (id_desc a b).
Proof. unfold id_desc. apply _. Defined.

#[export] Instance image_order_dec a b : Decision (image_order a b).
Proof. unfold image_order. apply _. Defined.

(** [images_by_pid.setdefault(ir["product_id"], []).append(ir["filename"])] *)
Definition group_image (m : gmap Z (list string)) (ir : product_image) : gmap Z (list string) :=
  <[i_product_id ir := default [] (m !! i_product_id ir) ++ [i_filename ir]]> m.

Definition list_products (d : database) : list product_view :=
  let rows := merge_sort id_desc (products d) in
  let product_ids := p_id <$> rows in
  let images_by_pid :=
    match product_ids with
    | [] => ∅
    | _ =>
        let img_rows :=
          merge_sort image_order
            (filter (fun r => i_product_id r ∈ product_ids) (product_images d)) in
        foldl group_image ∅ img_rows
    end in
  (fun p => product_to_dict (p, joined_seller p d) images_by_pid) <$> rows.

(** The image rows [list_products] shows for product [product_id], in the
    order in which it shows them. *)
Definition listed_rows (d : database) (product_id : Z) : list product_image :=
  filter (fun r => i_product_id r = product_id)
    (merge_sort image_order
       (filter (fun r => i_product_id r ∈ p_id <$> merge_sort id_desc (products d))
          (product_images d))).

(** The multipart form of [POST /api/products]; an absent field is [None]. *)
Record product_form := {
  pf_name : option str;
  pf_details : option str;
  pf_price : option str
}.

Inductive create_result :=
| LoginRequired                    (* 401 *)
| InvalidInput                     (* 400, "Invalid input" *)
| TooManyImages                    (* 400, "Max 5 images allowed" *)
| ImageRejected (error : string)   (* 400, the text of the ValueError *)
| Created (p : product_view)       (* 201 *)
| Unhandled (e : exn)              (* the exception leaves the handler *)
| Hangs.                           (* the handler does not return *)

Definition create_status (r : create_result) : option Z :=
  match r with
  | LoginRequired => Some 401
  | InvalidInput | TooManyImages | ImageRejected _ => Some 400
  | Created _ => Some 201
  | Unhandled _ => Some 500
  | Hangs => None
  end.

(** The loop [for i, f in enumerate(files or [])] inside the [try]: [w] is
    the upload directory and the connection's view of the database (rows
    inserted here are not committed yet).  Returns how the loop ended,
    [saved_filenames], and that state. *)
Fixpoint save_images (product_id : Z) (created_at : str) (i : Z)
    (uploads : list FileStorage) (saved_filenames : list string)
    (draws : list string) (w : world) : outcome unit * list string * world :=
  match uploads with
  | [] => (Returns (), saved_filenames, w)
  | f :: rest =>
      if bool_decide (filename f = [])
      then save_images product_id created_at (i + 1) rest saved_filenames draws w
      else
        match save_upload_image f draws (files w) with
        | (Returns fn, draws', fls') =>
            let saved_filenames' := saved_filenames ++ [fn] in
            match insert_product_image product_id fn i created_at (db w) with
            | inl e => (Raises e, saved_filenames', {| db := db w; files := fls' |})
            | inr d' =>
                save_images product_id created_at (i + 1) rest saved_filenames' draws'
                  {| db := d'; files := fls' |}
            end
        | (Raises e, _, fls') => (Raises e, saved_filenames, {| db := db w; files := fls' |})
        | (Spins, _, fls') => (Spins, saved_filenames, {| db := db w; files := fls' |})
        end
  end.

(** The uploads the loop does not skip, each with its position in the list
    the client sent ([i] is the position of the first). *)
Fixpoint kept (i : Z) (uploads : list FileStorage) : list (Z * FileStorage) :=
  match uploads with
  | [] => []
  | f :: rest =>
      if bool_decide (filename f = []) then kept (i + 1) rest
      else (i, f) :: kept (i + 1) rest
  end.

(** Row [row] is the stored form of upload [kf.2], sent at position [kf.1]:
    it carries the position as its [sort_order], and the file it names holds
    the uploaded bytes. *)
Definition stored_as (w : world) (row : product_image) (kf : Z * FileStorage) : Prop :=
  i_sort_order row = kf.1 /\ files w !! i_filename row = Some (stream kf.2).

(** [create_product]: the result and the durable state afterwards.  When an
    exception leaves the handler, or the handler never returns, the rows
    that were not committed are gone with the connection. *)
Definition create_product (session : option Z) (form : product_form)
    (uploads : list FileStorage) (created_at : str) (draws : list string)
    (w : world) : create_result * world :=
  match logged_in session with
  | None => (LoginRequired, w)
  | Some seller_id =>
      let name := strip (default [] (pf_name form)) in
      let details := strip (default [] (pf_details form)) in
      let price := pf_price form ≫= float_of_str in
      if bool_decide (name = []) || from_option float_lt0 true price
         || bool_decide (details = [])
      then (InvalidInput, w)
      else if bool_decide (len_list uploads > 5)
      then (TooManyImages, w)
      else
        let '(product_id, d1) :=
          insert_product name (default FNan price) details created_at (Some seller_id) (db w) in
        match save_images product_id created_at 0 uploads [] draws
                {| db := d1; files := files w |} with
        | (Returns _, saved_filenames, w2) =>
            match List.find (fun p => bool_decide (p_id p = product_id)) (products (db w2)) with
            | Some p =>
                (Created (product_to_dict (p, joined_seller p (db w2))
                            {[product_id := saved_filenames]}), w2)
            | None => (Unhandled (OtherError "TypeError"), w2)
            end
        | (Raises e, saved_filenames, w2) =>
            match e with
            | ValueError msg =>
                (ImageRejected msg,
                 {| db := delete_product_row product_id (db w2);
                    files := remove_files saved_filenames (files w2) |})
            | _ => (Unhandled e, {| db := d1; files := files w2 |})
            end
        | (Spins, _, w2) => (Hangs, {| db := d1; files := files w2 |})
        end
  end.

(** The input the handler refuses: name or details missing or empty, price
    missing or negative, more than five files. *)
Definition malformed (form : product_form) (uploads : list FileStorage) : Prop :=
  default [] (pf_name form) = [] \/
  default [] (pf_details form) = [] \/
  pf_price form = None \/
  (exists x, pf_price form ≫= float_of_str = Some x /\ float_lt0 x = true) \/
  len_list uploads > 5.

Definition validation_failure (r : create_result) : Prop :=
  r = InvalidInput \/ r = TooManyImages.

Inductive delete_result :=
| DelLoginRequired   (* 401 *)
| DelNotFound        (* 404 *)
| DelForbidden       (* 403 *)
| DelOk.             (* 200 *)

Definition delete_product (session : option Z) (product_id : Z) (w : world)
  : delete_result * world :=
  match logged_in session with
  | None => (DelLoginRequired, w)
  | Some seller_id =>
      match List.find (fun p => bool_decide (p_id p = product_id)) (products (db w)) with
      | None => (DelNotFound, w)
      | Some row =>
          if bool_decide (p_seller_id row ≠ Some seller_id) then (DelForbidden, w)
          else
            let filenames :=
              i_filename <$> filter (fun r => i_product_id r = product_id)
                               (product_images (db w)) in
            (DelOk, {| db := delete_product_row product_id (db w);
                       files := remove_files filenames (files w) |})
      end
  end.

(** ** The server as a transition system *)

Inductive request :=
| Register (data : seller_form) (created_at pin_hash : str)
| Login (data : seller_form)
| Logout
| ListProducts
| CreateProduct (form : product_form) (uploads : list FileStorage)
    (created_at : str) (draws : list string)
| DeleteProduct (product_id : Z).

(** One request: the session cookie the response carries, and the durable
    state afterwards. *)
Definition handle (r : request) (session : option Z) (w : world) : option Z * world :=
  match r with
  | Register data created_at pin_hash =>
      let '(_, session', d') := sellers_register data created_at pin_hash session (db w) in
      (session', {| db := d'; files := files w |})
  | Login data => ((sellers_login data session (db w)).2, w)
  | Logout => (sellers_logout session, w)
  | ListProducts => (session, w)
  | CreateProduct form uploads created_at draws =>
      (session, (create_product session form uploads created_at draws w).2)
  | DeleteProduct product_id => (session, (delete_product session product_id w).2)
  end.

(** The durable state and the seller ids the server has put into session
    cookies so far.  Cookies are signed with [app.secret_key]: a client
    presents no cookie or one the server issued. *)
Record system := {
  sys_world : world;
  sys_cookies : list Z
}.

Definition issue (session : option Z) (cookies : list Z) : list Z :=
  match session with
  | Some seller_id => seller_id :: cookies
  | None => cookies
  end.

(** Every session cookie the server issued names a seller row. *)
Definition cookies_valid (sys : system) : Prop :=
  forall seller_id,
    seller_id ∈ sys_cookies sys -> seller_id ∈ s_id <$> sellers (db (sys_world sys)).

Inductive step : system -> system -> Prop :=
| step_request sys r session session' w' :
    (forall seller_id, session = Some seller_id -> seller_id ∈ sys_cookies sys) ->
    handle r session (sys_world sys) = (session', w') ->
    step sys {| sys_world := w'; sys_cookies := issue session' (sys_cookies sys) |}.

End handlers.

(** The store right after [init_db] ran on a new database file. *)
Definition empty_database : database :=
  {| sellers := []; products := []; product_images := [];
     seq_sellers := 0; seq_products := 0; seq_product_images := 0 |}.

Definition empty_world : world := {| db := empty_database; files := ∅ |}.

Definition initial : system := {| sys_world := empty_world; sys_cookies := [] |}.

Definition reachable `{Builtins} (sys : system) : Prop := rtc step initial sys.

End Store.

(** * The logged-in seller's own row, and what holds of every stored row *)

Section account.
Import Store.
Context `{Builtins}.

(** [get_current_seller_row()]: the row of the session's seller, if the
    session names one and the row exists. *)
Definition get_current_seller_row (session : option Z) (d : database) : option seller :=
  match logged_in session with
  | None => None
  | Some sid => List.find (fun s => bool_decide (s_id s = sid)) (sellers d)
  end.

Inductive me_result :=
| MeNotLoggedIn                                      (* 401 *)
| MeOk (id : Z) (name whatsapp created_at : str).    (* 200 *)

(** [GET /api/sellers/me] *)
Definition sellers_me (session : option Z) (d : database) : me_result :=
  match get_current_seller_row session d with
  | None => MeNotLoggedIn
  | Some row => MeOk (s_id row) (s_name row) (s_whatsapp row) (s_created_at row)
  end.

(** What the checks of [sellers_register] let into the table: a name of 2
    to 60 characters, and a number of at least ten characters that is
    digits, or ['+'] and digits. *)
Definition seller_row_valid (s : seller) : Prop :=
  2 <= len (s_name s) <= 60 /\ len (s_whatsapp s) >= 10 /\ canonical (s_whatsapp s).

(** What the checks of [create_product] let into the table: a name and
    details that are not empty, a price that is not negative, and the key of
    the seller who was logged in. *)
Definition product_row_valid (p : product) : Prop :=
  p_name p ≠ [] /\ p_details p ≠ [] /\ float_lt0 (p_price p) = false /\
  exists seller_id, p_seller_id p = Some seller_id /\ seller_id ≠ 0.

(** The keys AUTOINCREMENT has handed out: positive, and not above the
    counter [sqlite_sequence] keeps for the table. *)
Definition keys_counted (d : database) : Prop :=
  0 <= seq_sellers d /\ 0 <= seq_products d /\
  Forall (fun id => 1 <= id <= seq_sellers d) (s_id <$> sellers d) /\
  Forall (fun id => 1 <= id <= seq_products d) (p_id <$> products d).

(** No two sellers with one key or one number, no two products with one
    key: the PRIMARY KEYs and the UNIQUE index. *)
Definition keys_unique (d : database) : Prop :=
  NoDup (s_id <$> sellers d) /\ NoDup (s_whatsapp <$> sellers d) /\
  NoDup (p_id <$> products d).

(** No product has more than five image rows. *)
Definition at_most_five_images (d : database) : Prop :=
  forall product_id,
    (length (filter (fun r => i_product_id r = product_id) (product_images d)) <= 5)%nat.

(** What the handlers keep true of the tables. *)
Definition store_ok (d : database) : Prop :=
  images_have_product d /\ keys_counted d /\ keys_unique d /\
  Forall seller_row_valid (sellers d) /\ Forall product_row_valid (products d) /\
  at_most_five_images d.

End account.

(** * What a run of [init_db] leaves in place *)

Section migration_more.
Import Migration.

(** State [s'] has everything [s] has: each table, with at least the
    columns it had, in the same order; each index; the ledger rows, as the
    first rows of the ledger; the upload directory. *)
Definition extends (s s' : state) : Prop :=
  (forall name cols, tables s !! name = Some cols ->
     exists more, tables s' !! name = Some (cols ++ more)) /\
  (forall name ix, indexes s !! name = Some ix -> indexes s' !! name = Some ix) /\
  recorded s `prefix_of` recorded s' /\
  (upload_dir s = true -> upload_dir s' = true).

(** A statement that, however it ends, leaves the ledger table and its rows
    alone. *)
Definition spares_ledger (fn : state -> run) : Prop :=
  forall s, ready s -> ready (final (fn s)) /\ ledger (final (fn s)) = ledger s.

End migration_more.

(** * Stand-ins for the library functions, to run the handlers on examples *)

Module Sample.

Definition ascii_digit (c : N) : bool := ((48 <=? c) && (c <=? 57))%N.

Definition ascii_space (c : N) : bool :=
  ((9 <=? c) && (c <=? 13) || (28 <=? c) && (c <=? 32))%N.

Fixpoint digits_value (acc : Z) (s : str) : option Z :=
  match s with
  | [] => Some acc
  | c :: rest =>
      if ascii_digit c then digits_value (10 * acc + (Z.of_N c - 48)) rest else None
  end.

(** [float] on an optional sign followed by decimal digits *)
Definition float_of_integer (s : str) : option pyfloat :=
  match s with
  | [] => None
  | 45%N :: (_ :: _) as ds => (fun v => FNum (- v) 0) <$> digits_value 0 ds
  | _ => (fun v => FNum v 0) <$> digits_value 0 s
  end.

(** A hash is ["h:"] followed by the PIN. *)
Definition check_prefixed (pwhash pin : str) : bool := bool_decide (pwhash = py "h:" ++ pin).

(** Format detection by the leading bytes, as Pillow's plugins do it: JPEG
    starts FF D8 FF, PNG starts 89 50 4E 47, GIF starts 47 49 46 38;
    anything else is not identified as an image. *)
Definition magic_probe (content : bytes) : exn + option string :=
  match content with
  | xff :: xd8 :: xff :: _ => inr (Some "JPEG")
  | x89 :: x50 :: x4e :: x47 :: _ => inr (Some "PNG")
  | x47 :: x49 :: x46 :: x38 :: _ => inr (Some "GIF")
  | _ => inl UnidentifiedImageError
  end.

#[export] Instance builtins : Builtins := {|
  isdigit_cp := ascii_digit;
  isspace_cp := ascii_space;
  float_of_str := float_of_integer;
  check_password_hash := check_prefixed;
  pil_probe := magic_probe
|}.

Definition jpeg_bytes : bytes := [xff; xd8; xff; xe0; x00; x10].
Definition png_bytes : bytes := [x89; x50; x4e; x47; x0d; x0a].
Definition gif_bytes : bytes := [x47; x49; x46; x38; x39; x61].
Definition text_bytes : bytes := [x68; x65; x6c; x6c; x6f].

Definition upload (name : string) (content : bytes) : Store.FileStorage :=
  {| Store.filename := py name; Store.content_type := py "image/jpeg";
     Store.stream := content |}.

(** A seller, a product, and the store after that seller registered. *)
Definition ali : Store.seller_form :=
  {| Store.sf_name := Some (py "Ali Khan");
     Store.sf_whatsapp := Some (py " +92 300 1234567 ");
     Store.sf_pin := Some (py "1234") |}.

Definition lamp : Store.product_form :=
  {| Store.pf_name := Some (py "Lamp");
     Store.pf_details := Some (py "Brass");
     Store.pf_price := Some (py "19") |}.

Definition shop : Store.world :=
  {| Store.db :=
       (Store.sellers_register ali (py "2024-01-01T00:00:00Z") (py "h:1234") None
          Store.empty_database).2;
     Store.files := ∅ |}.

(** Four uploads, all named [.jpg]: the third holds text. *)
Definition four_uploads : list Store.FileStorage :=
  [upload "a.jpg" jpeg_bytes; upload "b.jpg" png_bytes;
   upload "c.jpg" text_bytes; upload "d.jpg" jpeg_bytes].

(** Three uploads, the second one an empty form field. *)
Definition three_uploads : list Store.FileStorage :=
  [upload "a.jpg" jpeg_bytes; upload "" png_bytes; upload "c.jpg" png_bytes].

Definition names : list string := ["aa"; "bb"; "cc"; "dd"].

(** The store after seller 1 created the product: one product row, two
    image rows, two files. *)
Definition stocked : Store.world :=
  (Store.create_product (Some 1) lamp three_uploads (py "t") names shop).2.

Definition ali_row : Store.seller :=
  {| Store.s_id := 1; Store.s_name := py "Ali Khan"; Store.s_whatsapp := py "+923001234567";
     Store.s_pin_hash := py "h:1234"; Store.s_created_at := py "2024-01-01T00:00:00Z" |}.

Definition lamp_row : Store.product :=
  {| Store.p_id := 1; Store.p_name := py "Lamp"; Store.p_price := FNum 19 0;
     Store.p_details := py "Brass"; Store.p_created_at := py "t";
     Store.p_seller_id := Some 1 |}.

Definition lamp_image : Store.product_image :=
  {| Store.i_id := 2; Store.i_product_id := 1; Store.i_filename := "bb.png";
     Store.i_sort_order := 2; Store.i_created_at := py "t" |}.

(** The product as [list_products] shows it. *)
Definition lamp_view : Store.product_view :=
  {| Store.v_id := 1; Store.v_name := py "Lamp"; Store.v_price := FNum 19 0;
     Store.v_details := py "Brass"; Store.v_created_at := py "t";
     Store.v_seller_id := Some 1;
     Store.v_seller := Some (1, Some (py "Ali Khan"), Some (py "+923001234567"));
     Store.v_images := ["/uploads/aa.jpg"; "/uploads/bb.png"] |}.

(** The server after the registration, and after the product was created. *)
Definition shop_sys : Store.system :=
  {| Store.sys_world := shop; Store.sys_cookies := [1] |}.

Definition stocked_sys : Store.system :=
  {| Store.sys_world := stocked; Store.sys_cookies := [1; 1] |}.

(** A database file in which a table has the name that [migration_v3]
    gives its index. *)
Definition clashing : Migration.state :=
  {| Migration.upload_dir := false;
     Migration.tables := {["idx_products_seller_id" := ["x"]]};
     Migration.indexes := ∅;
     Migration.ledger := [] |}.

End Sample.

(** * List lemmas used below *)

Section list_facts.
Context {A : Type}.

Lemma filter_ext_elem (P1 P2 : A -> Prop)
    `{!forall x, Decision (P1 x), !forall x, Decision (P2 x)} (l : list A) :
  (forall x, x ∈ l -> P1 x <-> P2 x) -> filter P1 l = filter P2 l.
Proof.
  induction l as [|a l IH]; intros Hiff; [done|].
  rewrite !filter_cons.
  rewrite IH by (intros x Hx; apply Hiff; by right).
  apply decide_ext, Hiff. by left.
Qed.

End list_facts.

(** * Properties of the migrations *)

Module MigrationFacts.
Import Migration.

Lemma ready_applied s : ready s -> applied_versions s = inr (ledger s).
Proof.
  intros (cols & Ht & Hv). unfold applied_versions. rewrite Ht.
  by rewrite bool_decide_eq_true_2.
Qed.

Lemma ready_recorded s : ready s -> recorded s = ledger s.
Proof. intros (cols & Ht & _). unfold recorded. by rewrite Ht. Qed.

Lemma keeps_create_table name cols : keeps (create_table_if_not_exists name cols).
Proof.
  intros s s' Hrun (lc & Hl & Hv). unfold create_table_if_not_exists in Hrun.
  destruct (tables s !! name) eqn:Hn.
  { simplify_eq. split; [by exists lc|done]. }
  destruct (indexes s !! name); [done|]. simplify_eq. simpl.
  assert (name ≠ "schema_migrations") as Hne by (intros ->; congruence).
  split; [|by rewrite bool_decide_eq_false_2].
  exists lc. simpl. by rewrite lookup_insert_ne.
Qed.

Lemma keeps_create_index name table cols uniq :
  keeps (create_index_if_not_exists name table cols uniq).
Proof.
  intros s s' Hrun Hready. unfold create_index_if_not_exists in Hrun.
  repeat case_match; simplify_eq; done.
Qed.

Lemma keeps_alter_table table col : keeps (alter_table_add_column table col).
Proof.
  intros s s' Hrun (lc & Hl & Hv). unfold alter_table_add_column in Hrun.
  destruct (tables s !! table) as [tcols|] eqn:Ht; [|done].
  case_bool_decide; [done|]. simplify_eq. simpl. split; [|done].
  destruct (decide (table = "schema_migrations")) as [->|Hne].
  - exists (tcols ++ [col]). simpl. rewrite lookup_insert_eq. split; [done|].
    simplify_eq. set_solver.
  - exists lc. simpl. by rewrite lookup_insert_ne.
Qed.

Lemma keeps_bind f g : keeps f -> keeps g -> keeps (fun s => f s >>= g).
Proof.
  intros Hf Hg s s' Hrun Hready. simpl in Hrun.
  destruct (f s) as [s1|e s1] eqn:Hfs; [|done]. simpl in Hrun.
  destruct (Hf _ _ Hfs Hready) as (Hr1 & Hl1 & Hu1).
  destruct (Hg _ _ Hrun Hr1) as (Hr2 & Hl2 & Hu2).
  split; [done|]. split; congruence.
Qed.

Lemma keeps_v1 : keeps migration_v1.
Proof. apply keeps_create_table. Qed.

Lemma keeps_v2 : keeps migration_v2.
Proof.
  apply (keeps_bind (create_table_if_not_exists _ _)
           (create_index_if_not_exists _ _ _ _));
    [apply keeps_create_table | apply keeps_create_index].
Qed.

Lemma keeps_v3 : keeps migration_v3.
Proof.
  intros s s' Hrun Hready. unfold migration_v3 in Hrun.
  case_bool_decide.
  - simpl in Hrun. exact (keeps_create_index _ _ _ _ _ _ Hrun Hready).
  - exact (keeps_bind _ _ (keeps_alter_table _ _) (keeps_create_index _ _ _ _)
             s s' Hrun Hready).
Qed.

Lemma keeps_v4 : keeps migration_v4.
Proof.
  apply (keeps_bind (create_table_if_not_exists _ _)
           (create_index_if_not_exists _ _ _ _));
    [apply keeps_create_table | apply keeps_create_index].
Qed.

Lemma keeps_steps : Forall (fun c => keeps c.2) steps.
Proof.
  unfold steps.
  constructor; [apply keeps_v1|]. constructor; [apply keeps_v2|].
  constructor; [apply keeps_v3|]. constructor; [apply keeps_v4|]. constructor.
Qed.

(** One [apply] that returns either skipped, or ran its action and added
    its version at the end of the ledger. *)
Lemma apply_ok version fn s s' t :
  keeps fn -> ready s -> apply version fn s = (Ok s', t) ->
  ready s' /\ upload_dir s' = upload_dir s /\
  ledger s' = ledger s ++ filter (fun v => v ∉ ledger s) [version] /\
  t = events_for (ledger s) version.
Proof.
  intros Hfn Hready Happly. unfold apply in Happly.
  rewrite (ready_applied _ Hready) in Happly.
  unfold events_for. rewrite filter_cons, filter_nil.
  case_bool_decide as Hin.
  - simplify_eq. rewrite decide_False by tauto.
    by rewrite app_nil_r.
  - destruct (fn s) as [s1|e s1] eqn:Hfs; [|done].
    destruct (Hfn _ _ Hfs Hready) as (Hr1 & Hl1 & Hu1).
    unfold insert_version in Happly. rewrite (ready_applied _ Hr1) in Happly.
    rewrite Hl1 in Happly. rewrite bool_decide_eq_false_2 in Happly by done.
    simplify_eq. rewrite decide_True by done. simpl.
    split; [|done]. destruct Hr1 as (lc & ? & ?). by exists lc.
Qed.

Lemma events_for_snoc before v w :
  w ≠ v -> events_for (before ++ [v]) w = events_for before w.
Proof.
  intros Hne. unfold events_for.
  case_bool_decide as H1; case_bool_decide as H2; try done; set_solver.
Qed.

(** A sequence of [apply] calls for distinct versions that returns: the
    versions not yet recorded are executed and recorded in the order of the
    calls. *)
Lemma apply_in_order_ok calls : forall s s' t,
  Forall (fun c => keeps c.2) calls -> NoDup calls.*1 -> ready s ->
  apply_in_order calls s = (Ok s', t) ->
  ready s' /\ upload_dir s' = upload_dir s /\
  ledger s' = ledger s ++ filter (fun v => v ∉ ledger s) calls.*1 /\
  t = concat (events_for (ledger s) <$> calls.*1).
Proof.
  induction calls as [|[version fn] rest IH]; intros s s' t Hkeeps Hnodup Hready Hrun.
  - simpl in Hrun. simplify_eq. simpl. by rewrite filter_nil, app_nil_r.
  - simpl in Hrun.
    destruct (apply version fn s) as [[s1|e s1] t1] eqn:Happly; [|done].
    destruct (apply_in_order rest s1) as [r t2] eqn:Hrest. simplify_eq.
    apply Forall_cons in Hkeeps as [Hfn Hkeeps].
    simpl in Hnodup. apply NoDup_cons in Hnodup as [Hnotin Hnodup].
    destruct (apply_ok _ _ _ _ _ Hfn Hready Happly) as (Hr1 & Hu1 & Hl1 & ->).
    destruct (IH _ _ _ Hkeeps Hnodup Hr1 Hrest) as (Hr2 & Hu2 & Hl2 & ->).
    split; [done|]. split; [congruence|].
    rewrite filter_cons, filter_nil in Hl1.
    change (((version, fn) :: rest).*1) with (version :: rest.*1).
    rewrite filter_cons, fmap_cons.
    change (concat (?x :: ?l)) with (x ++ concat l).
    destruct (decide (version ∉ ledger s)) as [Hnew|Hold].
    + rewrite Hl2, Hl1. split.
      * rewrite <- (assoc_L (++)). simpl. do 2 f_equal.
        apply filter_ext_elem. intros w Hw.
        assert (w ≠ version) by (intros ->; done). set_solver.
      * do 2 f_equal. apply Forall_fmap_ext_1, Forall_forall.
        intros w Hw. apply events_for_snoc. by intros ->.
    + rewrite app_nil_r in Hl1. by rewrite Hl2, Hl1.
Qed.

Lemma applied_ready s vs : applied_versions s = inr vs -> ready s /\ vs = ledger s.
Proof.
  unfold applied_versions. destruct (tables s !! "schema_migrations") as [cols|] eqn:Ht; [|done].
  case_bool_decide; [|done]. intros [= <-]. split; [|done]. by exists cols.
Qed.

Lemma apply_in_order_ready version fn rest s s' t :
  apply_in_order ((version, fn) :: rest) s = (Ok s', t) -> ready s.
Proof.
  simpl. unfold apply.
  destruct (applied_versions s) as [e|vs] eqn:Hvs; [done|].
  intros _. by destruct (applied_ready _ _ Hvs).
Qed.

(** The ledger table [init_db] starts its steps with holds the rows that
    were recorded before. *)
Lemma ledger_table_created s s1 :
  create_table_if_not_exists "schema_migrations" ["version"] (makedirs s) = Ok s1 ->
  upload_dir s1 = true /\ ledger s1 = recorded s.
Proof.
  unfold create_table_if_not_exists, recorded. simpl.
  destruct (tables s !! "schema_migrations"); [by intros [= <-]|].
  destruct (indexes s !! "schema_migrations"); [done|]. by intros [= <-].
Qed.

(** A run of [init_db] that returns, from any state. *)
Lemma init_db_ok s s' t :
  init_db s = (Ok s', t) ->
  ready s' /\ upload_dir s' = true /\
  ledger s' = recorded s ++ filter (fun v => v ∉ recorded s) [1; 2; 3; 4] /\
  t = Commit :: concat (events_for (recorded s) <$> [1; 2; 3; 4]).
Proof.
  unfold init_db, init_db_with.
  destruct (create_table_if_not_exists _ _ _) as [s1|e s1] eqn:Hcreate; [|done].
  destruct (apply_in_order steps s1) as [r t1] eqn:Hsteps. intros [= -> <-].
  apply ledger_table_created in Hcreate as [Hdir Hledger].
  pose proof (apply_in_order_ready _ _ _ _ _ _ Hsteps) as Hready.
  destruct (apply_in_order_ok steps s1 s' t1 keeps_steps) as (Hr & Hu & Hl & ->);
    [|done|done|].
  { unfold steps. simpl. repeat (constructor; [set_solver|]). constructor. }
  rewrite <- Hledger. split; [done|]. split; [congruence|]. done.
Qed.

(** Once all four versions are recorded, [init_db] changes nothing. *)
Lemma init_db_skips_all s :
  ready s -> upload_dir s = true ->
  (forall v, v ∈ [1; 2; 3; 4] -> v ∈ ledger s) ->
  init_db s = (Ok s, [Commit]).
Proof.
  intros Hready Hdir Hall.
  assert (makedirs s = s) as Hmk by (destruct s; simpl in *; by subst).
  unfold init_db, init_db_with. rewrite Hmk.
  unfold create_table_if_not_exists.
  destruct Hready as (cols & Ht & Hv). rewrite Ht.
  assert (forall v fn, v ∈ [1; 2; 3; 4] -> apply v fn s = (Ok s, [])) as Hskip.
  { intros v fn Hin. unfold apply.
    rewrite (ready_applied s) by (by exists cols).
    by rewrite bool_decide_eq_true_2 by auto. }
  unfold steps. simpl.
  rewrite !Hskip by set_solver. done.
Qed.

(** C3. Running [init_db] again on the state a run of it returned with
    changes nothing: the second run returns with the same state and executes
    no step (it only commits the unchanged ledger table); and a ledger
    without duplicate versions stays without duplicates. *)
Theorem init_db_idempotent s s' t :
  NoDup (recorded s) ->
  init_db s = (Ok s', t) ->
  init_db s' = (Ok s', [Commit]) /\ NoDup (recorded s').
Proof.
  intros Hnodup Hrun.
  destruct (init_db_ok _ _ _ Hrun) as (Hready & Hdir & Hledger & _).
  split.
  - apply init_db_skips_all; [done..|].
    intros v Hv. rewrite Hledger.
    destruct (decide (v ∈ recorded s)); [set_solver|].
    apply elem_of_app. right. by apply list_elem_of_filter.
  - rewrite (ready_recorded _ Hready), Hledger.
    apply NoDup_app. split; [done|]. split.
    + intros v Hv [Hnew _]%list_elem_of_filter. done.
    + apply NoDup_filter. repeat (constructor; [set_solver|]). constructor.
Qed.

Lemma init_db_idempotent_witness :
  init_db migrated = (Ok migrated, [Commit]) /\ NoDup (recorded migrated).
Proof.
  apply (init_db_idempotent fresh migrated (init_db fresh).2).
  - apply NoDup_nil_2.
  - vm_compute. reflexivity.
Defined.




End MigrationFacts.

(** * Properties of the phone normalization *)

Section text_facts.
Context `{UnicodeLaws}.

Lemma py_plus : py "+" = [43%N].
Proof. reflexivity. Qed.

Lemma digits_of_all_digits s : all_digits (digits_of s).
Proof. apply Forall_forall. intros c Hc. by apply list_elem_of_filter in Hc as [? _]. Qed.

Lemma all_digits_no_space s : all_digits s -> no_space s.
Proof. intros Hs. eapply Forall_impl; [exact Hs|]. apply digit_not_space. Qed.

Lemma lstrip_no_space s : no_space s -> lstrip s = s.
Proof. destruct 1 as [|c s Hc _]; [done|]. simpl. by rewrite Hc. Qed.

Lemma strip_no_space s : no_space s -> strip s = s.
Proof.
  intros Hs. unfold strip, rstrip. rewrite (lstrip_no_space s Hs).
  rewrite lstrip_no_space; [apply reverse_involutive|].
  unfold no_space. by rewrite Forall_reverse.
Qed.

Lemma remove_spaces_no_space s : no_space s -> remove_spaces s = s.
Proof.
  intros Hs. unfold remove_spaces.
  induction Hs as [|c s Hc _ IH]; [done|].
  rewrite filter_cons, IH. rewrite decide_True; [done|].
  intros ->. rewrite space_is_space in Hc. done.
Qed.

Lemma digits_of_id s : all_digits s -> digits_of s = s.
Proof.
  intros Hs. unfold digits_of.
  induction Hs as [|c s Hc _ IH]; [done|].
  by rewrite filter_cons, IH, decide_True.
Qed.

Lemma startswith_plus_digits s : all_digits s -> startswith s (py "+") = false.
Proof.
  intros Hs. unfold startswith. rewrite py_plus. apply bool_decide_eq_false_2.
  destruct Hs as [|c s Hc _]; [done|]. simpl. intros Heq. injection Heq as ->.
  rewrite plus_not_digit in Hc. done.
Qed.

Lemma normalize_canonical s : canonical (normalize_whatsapp s).
Proof.
  unfold normalize_whatsapp. case_match.
  - right. eexists. rewrite py_plus. split; [done|]. apply digits_of_all_digits.
  - left. apply digits_of_all_digits.
Qed.

Lemma normalize_fixes_canonical s : canonical s -> normalize_whatsapp s = s.
Proof.
  intros [Hs|(rest & -> & Hrest)]; unfold normalize_whatsapp.
  - pose proof (all_digits_no_space _ Hs) as Hns.
    rewrite (strip_no_space _ Hns), (remove_spaces_no_space _ Hns).
    rewrite (startswith_plus_digits _ Hs). by apply digits_of_id.
  - assert (no_space (43%N :: rest)) as Hns.
    { constructor; [apply plus_not_space | by apply all_digits_no_space]. }
    rewrite (strip_no_space _ Hns), (remove_spaces_no_space _ Hns).
    rewrite py_plus. unfold startswith.
    rewrite bool_decide_eq_true_2 by (by destruct rest).
    change (drop 1 (43%N :: rest)) with rest. by rewrite digits_of_id.
Qed.

(** C10. [normalize_whatsapp] is idempotent, and what it returns consists
    of digits only, or of ['+'] followed by digits only. *)
Theorem normalize_whatsapp_idempotent_canonical (s : str) :
  normalize_whatsapp (normalize_whatsapp s) = normalize_whatsapp s /\
  (Forall (fun c => isdigit_cp c = true) (normalize_whatsapp s) \/
   exists rest, normalize_whatsapp s = 43%N :: rest /\
                Forall (fun c => isdigit_cp c = true) rest).
Proof.
  split; [apply normalize_fixes_canonical|]; apply normalize_canonical.
Qed.

End text_facts.

(** * Properties of the image intake *)

Section intake_facts.
Import Store.
Context `{Builtins}.

Lemma sniff_accepts file_storage ext :
  _sniff_and_get_ext file_storage = inr ext ->
  decodes_as_allowed (stream file_storage) /\ ext ∈ [".jpg"; ".png"; ".webp"].
Proof.
  unfold _sniff_and_get_ext, decodes_as_allowed.
  destruct (pil_probe (stream file_storage)) as [e|[fmt|]]; [done| |done].
  simpl. repeat case_bool_decide; intros [= <-];
    (split; [exists fmt; split; [done|] |]); set_solver.
Qed.


Lemma unused_name_spec ext fls : forall draws fn draws',
  unused_name ext draws fls = Some (fn, draws') ->
  fls !! fn = None /\
  exists taken hex, draws = taken ++ hex :: draws' /\ fn = hex +:+ ext /\
    Forall (fun h => is_Some (fls !! (h +:+ ext))) taken.
Proof.
  induction draws as [|hex rest IH]; intros fn draws' Hname; [done|].
  simpl in Hname. case_bool_decide as Hexists.
  - destruct (IH _ _ Hname) as (Hfree & taken & hex' & -> & -> & Htaken).
    split; [done|]. exists (hex :: taken), hex'. split; [done|]. split; [done|].
    by constructor.
  - simplify_eq. split; [by apply eq_None_not_Some|].
    exists [], hex. split; [done|]. split; [done|]. constructor.
Qed.

(** The loop ends as soon as a drawn name is free. *)
Lemma unused_name_total ext fls draws :
  (exists hex, hex ∈ draws /\ fls !! (hex +:+ ext) = None) ->
  is_Some (unused_name ext draws fls).
Proof.
  intros (hex & Hin & Hfree). induction draws as [|h rest IH]; [by apply elem_of_nil in Hin|].
  simpl. case_bool_decide as Hexists; [|by eexists].
  apply IH. apply elem_of_cons in Hin as [->|Hin]; [|done].
  rewrite Hfree in Hexists. by destruct Hexists.
Qed.


(** Content reaches the upload directory only behind a successful
    validation. *)
Lemma save_upload_image_writes_validated file_storage draws fls r draws' fls' :
  save_upload_image file_storage draws fls = (r, draws', fls') ->
  fls' = fls \/
  (decodes_as_allowed (stream file_storage) /\
   exists fn, r = Returns fn /\ fls' = <[fn := stream file_storage]> fls).
Proof.
  unfold save_upload_image.
  destruct (_sniff_and_get_ext file_storage) as [e|ext] eqn:Hsniff; [left; congruence|].
  apply sniff_accepts in Hsniff as [Hdec _].
  case_bool_decide; [|left; congruence].
  destruct (unused_name ext draws fls) as [[fn rest]|]; [|left; congruence].
  intros [= <- <- <-]. right. split; [done|]. by exists fn.
Qed.

(** A call of [save_upload_image] that returns: the first free drawn name,
    and the content written under it. *)
Lemma save_upload_image_returns file_storage draws fls fn draws' fls' :
  save_upload_image file_storage draws fls = (Returns fn, draws', fls') ->
  fls !! fn = None /\
  fls' = <[fn := stream file_storage]> fls /\
  (forall k, is_Some (fls !! k) -> fls' !! k = fls !! k) /\
  exists ext taken hex,
    _sniff_and_get_ext file_storage = inr ext /\
    draws = taken ++ hex :: draws' /\ fn = hex +:+ ext /\
    Forall (fun h => is_Some (fls !! (h +:+ ext))) taken.
Proof.
  unfold save_upload_image.
  destruct (_sniff_and_get_ext file_storage) as [e|ext] eqn:Hsniff; [done|].
  case_bool_decide; [|done].
  destruct (unused_name ext draws fls) as [[fn' rest]|] eqn:Hname; [|done].
  intros [= -> -> <-].
  destruct (unused_name_spec _ _ _ _ _ Hname) as (Hfree & taken & hex & -> & -> & Htaken).
  split; [done|]. split; [done|]. split.
  - intros k [v Hk]. rewrite lookup_insert_ne; [done|]. intros <-. congruence.
  - by exists ext, taken, hex.
Qed.

(** C9. When [save_upload_image] returns, the name it returns was not the
    name of any file when the content was written: it is the first drawn
    name that was free, every name drawn before it was taken and was passed
    over, and every file that existed is still there with its content. *)
Theorem save_upload_image_fresh_name file_storage draws fls fn draws' fls' :
  save_upload_image file_storage draws fls = (Returns fn, draws', fls') ->
  fls !! fn = None /\
  fls' = <[fn := stream file_storage]> fls /\
  (forall k, is_Some (fls !! k) -> fls' !! k = fls !! k) /\
  exists ext taken hex,
    _sniff_and_get_ext file_storage = inr ext /\
    draws = taken ++ hex :: draws' /\ fn = hex +:+ ext /\
    Forall (fun h => is_Some (fls !! (h +:+ ext))) taken.
Proof. apply save_upload_image_returns. Qed.

End intake_facts.

(** * Properties of the request handlers *)

Section handler_facts.
Import Store.
Context `{Builtins}.

Lemma strip_nil : strip [] = [].
Proof. reflexivity. Qed.

Lemma create_product_refuses session seller_id form uploads created_at draws w :
  logged_in session = Some seller_id ->
  malformed form uploads ->
  create_product session form uploads created_at draws w = (InvalidInput, w) \/
  create_product session form uploads created_at draws w = (TooManyImages, w).
Proof.
  intros Hlogin Hbad. unfold create_product. rewrite Hlogin.
  destruct Hbad as [Hname|[Hdetails|[Hprice|[(x & Hx & Hneg)|Hmany]]]].
  - rewrite Hname, strip_nil. by left.
  - rewrite Hdetails, strip_nil. rewrite (bool_decide_eq_true_2 ([] = [])) by done.
    rewrite orb_true_r. by left.
  - rewrite Hprice. simpl. rewrite orb_true_r. by left.
  - rewrite Hx. simpl. rewrite Hneg, orb_true_r. by left.
  - destruct (_ || _); [by left|].
    rewrite bool_decide_eq_true_2 by done. by right.
Qed.

(** Without a login the handler answers 401 before it looks at the input,
    and writes nothing. *)
Lemma create_product_login_required session form uploads created_at draws w :
  logged_in session = None ->
  create_product session form uploads created_at draws w = (LoginRequired, w).
Proof. intros Hlogin. unfold create_product. by rewrite Hlogin. Qed.

(** C8. A [create_product] call for seller [seller_id] with malformed input
    (name or details missing or empty, price missing or negative, more than
    five files) is answered with a validation failure, status 400, and
    writes nothing: no row is inserted and no file is stored, the database
    and the upload directory are what they were. *)
Theorem create_product_malformed session seller_id form uploads created_at draws w :
  logged_in session = Some seller_id ->
  malformed form uploads ->
  exists r,
    create_product session form uploads created_at draws w = (r, w) /\
    validation_failure r /\ create_status r = Some 400.
Proof.
  intros Hlogin Hbad.
  destruct (create_product_refuses _ _ _ _ created_at draws w Hlogin Hbad) as [-> | ->];
    eexists; (split; [done|]); (split; [|done]); [by left|by right].
Qed.

(** A registration that meets a seller with the same normalized number
    changes nothing. *)
Lemma sellers_register_taken data created_at pin_hash session d :
  normalize_whatsapp (default [] (sf_whatsapp data)) ∈ s_whatsapp <$> sellers d ->
  exists r, sellers_register data created_at pin_hash session d = (r, session, d) /\
    ((exists error, r = RegInvalid error) \/ r = RegConflict) /\
    (fields_ok data -> len (normalize_whatsapp (default [] (sf_whatsapp data))) >= 10 ->
     r = RegConflict).
Proof.
  intros Htaken. unfold sellers_register, fields_ok.
  set (name := strip (default [] (sf_name data))).
  set (whatsapp := normalize_whatsapp (default [] (sf_whatsapp data))) in *.
  set (pin := strip (default [] (sf_pin data))).
  destruct (bool_decide (len name < 2) || bool_decide (len name > 60)) eqn:Hname.
  { eexists. split; [done|]. split; [left; by eexists|].
    intros ([? ?] & _) _. apply orb_prop in Hname as [?%bool_decide_eq_true|?%bool_decide_eq_true]; lia. }
  destruct (bool_decide (whatsapp = []) || bool_decide (len whatsapp < 10)) eqn:Hphone.
  { eexists. split; [done|]. split; [left; by eexists|].
    intros _ ?. apply orb_prop in Hphone as [->%bool_decide_eq_true|?%bool_decide_eq_true];
      [unfold len in *; simpl in *|]; lia. }
  destruct (negb (isdigit pin) || negb (bool_decide (4 <= len pin <= 8))) eqn:Hpin.
  { eexists. split; [done|]. split; [left; by eexists|].
    intros (_ & Hdig & ?) _.
    apply orb_prop in Hpin as [Hp|Hp]; apply negb_true_iff in Hp;
      [congruence | apply bool_decide_eq_false in Hp; lia]. }
  unfold insert_seller. rewrite bool_decide_eq_true_2 by done.
  exists RegConflict. split; [done|]. split; [by right|done].
Qed.

(** A registration that succeeds stores the row it reports, under the
    normalized number, which has at least ten characters. *)
Lemma sellers_register_created data created_at pin_hash session d id name whatsapp c session' d' :
  sellers_register data created_at pin_hash session d
    = (RegCreated id name whatsapp c, session', d') ->
  whatsapp = normalize_whatsapp (default [] (sf_whatsapp data)) /\
  len whatsapp >= 10 /\ session' = Some id /\
  sellers d' = sellers d ++
    [{| s_id := id; s_name := name; s_whatsapp := whatsapp;
        s_pin_hash := pin_hash; s_created_at := c |}] /\
  products d' = products d /\ product_images d' = product_images d /\
  id = next_rowid (seq_sellers d) (s_id <$> sellers d).
Proof.
  unfold sellers_register.
  destruct (_ || _); [done|].
  destruct (bool_decide (_ = []) || bool_decide (len _ < 10)) eqn:Hphone; [done|].
  destruct (negb _ || _); [done|].
  apply orb_false_elim in Hphone as [_ Hlen%bool_decide_eq_false].
  unfold insert_seller. destruct (bool_decide (_ ∈ _)); [done|].
  intros Heq. injection Heq as <- <- <- <- <- <-. simpl.
  repeat split; try done. 
Qed.

(** C6. After a registration succeeded, in any later state [d2] that still
    holds the seller rows (no handler deletes one), a registration whose
    number normalizes to the same string, and whose name and PIN pass their
    checks, is answered with Conflict; it leaves every table and the session
    as they were, so the first seller's row is still the row that was
    stored. *)
Theorem sellers_register_duplicate_conflict
    data1 created_at1 pin_hash1 session1 d id name whatsapp c session1' d1
    d2 data2 created_at2 pin_hash2 session2 :
  sellers_register data1 created_at1 pin_hash1 session1 d
    = (RegCreated id name whatsapp c, session1', d1) ->
  sellers d1 ⊆ sellers d2 ->
  normalize_whatsapp (default [] (sf_whatsapp data2))
    = normalize_whatsapp (default [] (sf_whatsapp data1)) ->
  fields_ok data2 ->
  sellers_register data2 created_at2 pin_hash2 session2 d2 = (RegConflict, session2, d2) /\
  {| s_id := id; s_name := name; s_whatsapp := whatsapp;
     s_pin_hash := pin_hash1; s_created_at := c |} ∈ sellers d2.
Proof.
  intros Hfirst Hlater Hsame Hok.
  destruct (sellers_register_created _ _ _ _ _ _ _ _ _ _ _ Hfirst)
    as (Hw & Hlen & _ & Hsellers & _).
  assert ({| s_id := id; s_name := name; s_whatsapp := whatsapp;
             s_pin_hash := pin_hash1; s_created_at := c |} ∈ sellers d2) as Hrow.
  { apply Hlater. rewrite Hsellers. apply elem_of_app. right. by left. }
  split; [|done].
  destruct (sellers_register_taken data2 created_at2 pin_hash2 session2 d2)
    as (r & -> & _ & Hconflict).
  { rewrite Hsame, <- Hw. by apply (list_elem_of_fmap_2 s_whatsapp) in Hrow. }
  rewrite Hconflict; [done..|]. by rewrite Hsame, <- Hw.
Qed.

End handler_facts.

(** * The seller reference of a product *)

Section reference_facts.
Import Store.
Context `{Builtins}.

Lemma logged_in_session session seller_id :
  logged_in session = Some seller_id -> session = Some seller_id.
Proof.
  unfold logged_in, current_seller_id. destruct session as [sid|]; [|done].
  case_bool_decide; [done|]. congruence.
Qed.

(** The image loop writes to [product_images] and to the upload directory
    only. *)
Lemma save_images_other_tables product_id created_at uploads :
  forall i saved draws w r saved' w',
    save_images product_id created_at i uploads saved draws w = (r, saved', w') ->
    sellers (db w') = sellers (db w) /\ products (db w') = products (db w) /\
    seq_sellers (db w') = seq_sellers (db w) /\ seq_products (db w') = seq_products (db w).
Proof.
  induction uploads as [|f rest IH]; intros i saved draws w r saved' w' Hloop; simpl in Hloop.
  { by simplify_eq. }
  case_bool_decide; [by eapply IH|].
  destruct (save_upload_image f draws (files w)) as [[[fn|e|] draws1] fls1];
    [|by simplify_eq..].
  unfold insert_product_image in Hloop. case_bool_decide; [|by simplify_eq].
  by apply IH in Hloop.
Qed.

Lemma sellers_register_cases data created_at pin_hash session d r session' d' :
  sellers_register data created_at pin_hash session d = (r, session', d') ->
  (session' = session /\ d' = d) \/
  (exists id name whatsapp c, r = RegCreated id name whatsapp c).
Proof.
  unfold sellers_register. repeat case_match; intros; simplify_eq; eauto 10.
Qed.

Lemma sellers_login_session data session d :
  (sellers_login data session d).2 = session \/
  exists row, row ∈ sellers d /\ (sellers_login data session d).2 = Some (s_id row).
Proof.
  unfold sellers_login. destruct (_ || _); [by left|].
  destruct (List.find _ _) as [row|] eqn:Hfind; [|by left].
  destruct (check_password_hash _ _); [|by left].
  right. exists row. split; [|done].
  apply find_some in Hfind as [Hin _]. by apply list_elem_of_In.
Qed.

Lemma create_product_tables session form uploads created_at draws w :
  let w' := (create_product session form uploads created_at draws w).2 in
  sellers (db w') = sellers (db w) /\
  forall p, p ∈ products (db w') ->
    p ∈ products (db w) \/ p_seller_id p = session.
Proof.
  unfold create_product.
  destruct (logged_in session) as [seller_id|] eqn:Hlogin; [|by split; [|left]].
  apply logged_in_session in Hlogin as ->.
  destruct (_ || _); [by split; [|left]|].
  case_bool_decide; [by split; [|left]|].
  unfold insert_product.
  match goal with |- context [save_images ?a ?b ?c ?d ?e ?f ?g] =>
    destruct (save_images a b c d e f g) as [[r saved] w2] eqn:Hloop end.
  apply save_images_other_tables in Hloop as (Hs & Hp & _). simpl in Hs, Hp.
  assert (forall p, p ∈ products (db w2) ->
            p ∈ products (db w) \/ p_seller_id p = Some seller_id) as Hnew.
  { intros p. rewrite Hp. intros [?|Hp']%elem_of_app; [by left|right].
    apply list_elem_of_singleton in Hp' as ->. done. }
  destruct r as [[]|e|]; simpl.
  - by destruct (List.find _ _).
  - destruct e; simpl; try (split; [done|]; intros p; rewrite elem_of_app;
      intros [?|Hp'%list_elem_of_singleton]; [by left|right; by subst]).
    split; [done|]. intros p [_ Hin]%list_elem_of_filter. auto.
  - split; [done|]. intros p. rewrite elem_of_app.
    intros [?|Hp'%list_elem_of_singleton]; [by left|right; by subst].
Qed.

Lemma delete_product_tables session product_id w :
  let w' := (delete_product session product_id w).2 in
  sellers (db w') = sellers (db w) /\
  forall p, p ∈ products (db w') -> p ∈ products (db w).
Proof.
  unfold delete_product. repeat case_match; simpl; (split; [done|]); try done.
  intros q [_ Hin]%list_elem_of_filter. done.
Qed.

(** No handler removes or changes a seller row. *)
Lemma step_sellers_grow sys sys' :
  step sys sys' -> sellers (db (sys_world sys)) ⊆ sellers (db (sys_world sys')).
Proof.
  intros [sys0 r session session' w' _ Hhandle]. simpl.
  destruct r; simpl in Hhandle; simplify_eq; try done.
  - destruct (sellers_register _ _ _ _ _) as [[res s'] d'] eqn:Hreg. simplify_eq. simpl.
    destruct (sellers_register_cases _ _ _ _ _ _ _ _ Hreg)
      as [[-> ->]|(id & name & whatsapp & c & ->)]; [done|].
    apply sellers_register_created in Hreg as (_ & _ & _ & -> & _).
    intros row Hrow. apply elem_of_app. by left.
  - by destruct (create_product_tables session' form uploads created_at draws (sys_world sys0))
      as [-> _].
  - by destruct (delete_product_tables session' product_id (sys_world sys0)) as [-> _].
Qed.

Lemma steps_sellers_grow sys sys' :
  rtc step sys sys' -> sellers (db (sys_world sys)) ⊆ sellers (db (sys_world sys')).
Proof.
  induction 1 as [|sys1 sys2 sys3 Hstep _ IH]; [done|].
  etrans; [by apply step_sellers_grow|done].
Qed.

Lemma step_preserves sys sys' :
  step sys sys' ->
  sellers_exist (db (sys_world sys)) /\ cookies_valid sys ->
  sellers_exist (db (sys_world sys')) /\ cookies_valid sys'.
Proof.
  intros [sys0 r session session' w' Hcookie Hhandle] [Hrefs Hcookies].
  unfold sellers_exist, cookies_valid in *. simpl.
  assert (forall sid, session = Some sid -> sid ∈ s_id <$> sellers (db (sys_world sys0)))
    as Hsession by auto.
  destruct r; simpl in Hhandle.
  - destruct (sellers_register _ _ _ _ _) as [[res s'] d'] eqn:Hreg. simplify_eq. simpl.
    destruct (sellers_register_cases _ _ _ _ _ _ _ _ Hreg)
      as [[-> ->]|(id & name & whatsapp & c & ->)].
    + split; [done|]. unfold issue. destruct session as [sid|]; [|done].
      intros x [->|?]%elem_of_cons; auto.
    + apply sellers_register_created in Hreg as (_ & _ & -> & Hs & Hp & _).
      rewrite Hs, Hp, fmap_app. split.
      * intros p sid Hin Hsid. apply elem_of_app. left. eauto.
      * simpl. intros x [->|?]%elem_of_cons; apply elem_of_app; [right|left; auto].
        simpl. set_solver.
  - simplify_eq. split; [done|].
    destruct (sellers_login_session data session (db (sys_world sys0)))
      as [->|(row & Hrow & ->)].
    + unfold issue. destruct session as [sid|]; [|done].
      intros x [->|?]%elem_of_cons; auto.
    + simpl. intros x [->|?]%elem_of_cons; [|auto].
      apply list_elem_of_fmap. by exists row.
  - simplify_eq. done.
  - simplify_eq. split; [done|]. unfold issue. destruct session' as [sid|]; [|done].
    intros x [->|?]%elem_of_cons; auto.
  - simplify_eq.
    destruct (create_product_tables session' form uploads created_at draws (sys_world sys0))
      as [Hs Hp].
    rewrite Hs. split.
    + intros p sid Hin Hsid. apply Hp in Hin as [Hin|Hin]; [eauto|].
      apply Hsession. congruence.
    + unfold issue. destruct session' as [sid|]; [|done].
      intros x [->|?]%elem_of_cons; auto.
  - simplify_eq.
    destruct (delete_product_tables session' product_id (sys_world sys0)) as [Hs Hp].
    rewrite Hs. split.
    + intros p sid Hin Hsid. eauto.
    + unfold issue. destruct session' as [sid|]; [|done].
      intros x [->|?]%elem_of_cons; auto.
Qed.

(** C7. In every state the server can reach from the empty store, by any
    sequence of registrations, logins, logouts, listings, product creations
    and product deletions, each product whose [seller_id] is set refers to
    an existing seller row. *)
Theorem reachable_sellers_exist sys :
  reachable sys -> sellers_exist (db (sys_world sys)).
Proof.
  intros Hreach.
  cut (sellers_exist (db (sys_world sys)) /\ cookies_valid sys); [by intros [? _]|].
  revert sys Hreach. apply rtc_ind_r.
  - split; intros x; simpl; [intros ? Hin|intros Hin]; by apply elem_of_nil in Hin.
  - intros sys1 sys2 _ Hstep IH. by eapply step_preserves.
Qed.

End reference_facts.

(** * Properties of product creation and listing *)

Section order_facts.
Context {A : Type} (key : A -> Z).

(** In a list whose keys increase strictly, the key determines the element. *)
Lemma increasing_key_inj (l : list A) x y :
  StronglySorted (fun a b => key a < key b) l ->
  x ∈ l -> y ∈ l -> key x = key y -> x = y.
Proof.
  induction 1 as [|a l Hsorted IH Hall]; intros Hx Hy Hkey.
  { by apply elem_of_nil in Hx. }
  rewrite Forall_forall in Hall.
  apply elem_of_cons in Hx as [->|Hx]; apply elem_of_cons in Hy as [->|Hy]; auto.
  - apply Hall in Hy. lia.
  - apply Hall in Hx. lia.
Qed.

Lemma StronglySorted_filter (R : relation A) (P : A -> Prop)
    `{!forall x, Decision (P x)} (l : list A) :
  StronglySorted R l -> StronglySorted R (filter P l).
Proof.
  induction 1 as [|a l Hsorted IH Hall]; [constructor|].
  rewrite filter_cons. case_decide; [|done].
  constructor; [done|]. rewrite Forall_forall in *.
  intros b [_ Hb]%list_elem_of_filter. auto.
Qed.

Lemma StronglySorted_weaken (R1 R2 : relation A) (l : list A) :
  (forall x y, R1 x y -> R2 x y) -> StronglySorted R1 l -> StronglySorted R2 l.
Proof.
  intros Himpl. induction 1 as [|a l Hsorted IH Hall]; constructor; [done|].
  eapply Forall_impl; [exact Hall|]. auto.
Qed.

End order_facts.

Section creation_facts.
Import Store.
Context `{Builtins}.

Lemma remove_files_delete fn names : forall fls,
  remove_files names (delete fn fls) = delete fn (remove_files names fls).
Proof.
  induction names as [|a names IH]; intros fls; [done|].
  unfold remove_files in *. simpl. rewrite <- IH. f_equal.
  apply delete_delete.
Qed.

Lemma save_upload_image_raises file_storage draws fls r draws' fls' :
  save_upload_image file_storage draws fls = (r, draws', fls') ->
  (forall fn, r ≠ Returns fn) -> fls' = fls.
Proof.
  intros Hsave Hr.
  destruct (save_upload_image_writes_validated _ _ _ _ _ _ Hsave)
    as [->|(_ & fn & -> & _)]; [done|].
  by destruct (Hr fn).
Qed.

(** What the image loop has done when it ends, however it ends: the rows
    it added, all for this product, are the files it saved; removing those
    files gives the upload directory back as it was; no file that existed
    was changed.  When the loop runs to its end, the rows are the uploads it
    kept, in order. *)
Lemma save_images_spec product_id created_at uploads :
  forall i saved draws w r saved' w',
    product_id ∈ p_id <$> products (db w) ->
    save_images product_id created_at i uploads saved draws w = (r, saved', w') ->
    exists rows,
      product_images (db w') = product_images (db w) ++ rows /\
      saved' = saved ++ (i_filename <$> rows) /\
      Forall (fun row => i_product_id row = product_id) rows /\
      remove_files (i_filename <$> rows) (files w') = files w /\
      (forall k v, files w !! k = Some v -> files w' !! k = Some v) /\
      (r = Returns () -> Forall2 (stored_as w') rows (kept i uploads)).
Proof.
  induction uploads as [|f rest IH]; intros i saved draws w r saved' w' Hparent Hloop;
    simpl in Hloop.
  { simplify_eq. exists []. rewrite !app_nil_r. repeat split; done. }
  simpl. case_bool_decide as Hname; [by eapply IH|].
  destruct (save_upload_image f draws (files w)) as [[o draws1] fls1] eqn:Hsave.
  destruct o as [fn|e|].
  - destruct (save_upload_image_returns _ _ _ _ _ _ Hsave) as (Hfree & -> & _).
    unfold insert_product_image in Hloop.
    rewrite bool_decide_eq_true_2 in Hloop by done.
    apply IH in Hloop as (rows & Himgs & -> & Hpid & Hfiles & Hkeep & Horder); [|done].
    simpl in *.
    eexists (_ :: rows). split; [by rewrite Himgs, <- (assoc_L (++))|].
    split; [by rewrite <- (assoc_L (++))|].
    split; [by constructor|]. split; [|split].
    + rewrite fmap_cons. unfold remove_files in *. simpl.
      fold (remove_files (i_filename <$> rows) (delete fn (files w'))).
      rewrite remove_files_delete. unfold remove_files. rewrite Hfiles.
      by apply delete_insert_id.
    + intros k v Hk. apply Hkeep. rewrite lookup_insert_ne; [done|].
      intros <-. congruence.
    + intros Hr. constructor; [|by apply Horder].
      split; [done|]. simpl. apply Hkeep. by rewrite lookup_insert_eq.
  - assert (fls1 = files w) as -> by (by eapply save_upload_image_raises).
    simplify_eq. exists []. rewrite !app_nil_r. simpl. repeat split; done.
  - assert (fls1 = files w) as -> by (by eapply save_upload_image_raises).
    simplify_eq. exists []. rewrite !app_nil_r. simpl. repeat split; done.
Qed.

End creation_facts.

Section listing_facts.
Import Store.
Context `{Builtins}.

Lemma image_order_trans : Transitive image_order.
Proof. intros a b c. unfold image_order. lia. Qed.

Lemma image_order_total : Total image_order.
Proof. intros a b. unfold image_order. lia. Qed.

#[local] Existing Instance image_order_trans.
#[local] Existing Instance image_order_total.

Lemma listed_rows_sorted d product_id : StronglySorted image_order (listed_rows d product_id).
Proof. apply StronglySorted_filter, StronglySorted_merge_sort; apply _. Qed.

Lemma listed_rows_perm d product_id :
  product_id ∈ p_id <$> products d ->
  listed_rows d product_id ≡ₚ filter (fun r => i_product_id r = product_id) (product_images d).
Proof.
  intros Hin. unfold listed_rows. rewrite merge_sort_Permutation.
  rewrite list_filter_filter. apply reflexive_eq, list_filter_iff.
  intros r. split; [by intros [? _]|]. intros ->. split; [done|].
  by rewrite merge_sort_Permutation.
Qed.

Lemma group_image_lookup product_id rows : forall m,
  default [] (foldl group_image m rows !! product_id) =
  default [] (m !! product_id) ++
    (i_filename <$> filter (fun r => i_product_id r = product_id) rows).
Proof.
  induction rows as [|r rows IH]; intros m; simpl.
  { by rewrite app_nil_r. }
  rewrite IH, filter_cons. unfold group_image.
  destruct (decide (i_product_id r = product_id)) as [->|Hne].
  - rewrite lookup_insert_eq. simpl. by rewrite <- (assoc_L (++)).
  - by rewrite lookup_insert_ne.
Qed.

Lemma product_to_dict_ext p s (m1 m2 : gmap Z (list string)) :
  default [] (m1 !! p_id p) = default [] (m2 !! p_id p) ->
  product_to_dict (p, s) m1 = product_to_dict (p, s) m2.
Proof. intros Heq. unfold product_to_dict. by rewrite Heq. Qed.

(** [list_products] is the products, each with its image rows in
    [(sort_order, id)] order. *)
Lemma list_products_elem d view :
  view ∈ list_products d <->
  exists p, p ∈ products d /\
    view = product_to_dict (p, joined_seller p d)
             {[p_id p := i_filename <$> listed_rows d (p_id p)]}.
Proof.
  unfold list_products.
  set (rows := merge_sort id_desc (products d)).
  assert (forall p, p ∈ rows <-> p ∈ products d) as Hrows.
  { intros p. unfold rows. by rewrite merge_sort_Permutation. }
  assert (forall p, p ∈ rows ->
    product_to_dict (p, joined_seller p d)
      match p_id <$> rows with
      | [] => ∅
      | _ => foldl group_image ∅
               (merge_sort image_order
                  (filter (fun r => i_product_id r ∈ p_id <$> rows) (product_images d)))
      end
    = product_to_dict (p, joined_seller p d)
        {[p_id p := i_filename <$> listed_rows d (p_id p)]}) as Hview.
  { intros p Hp. apply product_to_dict_ext. rewrite lookup_singleton_eq. simpl.
    destruct (p_id <$> rows) as [|x ids] eqn:Hids.
    { apply fmap_nil_inv in Hids. rewrite Hids in Hp. by apply elem_of_nil in Hp. }
    rewrite <- Hids. by rewrite group_image_lookup, lookup_empty. }
  rewrite list_elem_of_fmap. split.
  - intros (p & -> & Hp). exists p. split; [by apply Hrows|by apply Hview].
  - intros (p & Hp & ->). exists p. split; [|by apply Hrows].
    symmetry. by apply Hview, Hrows.
Qed.

(** The positions of the uploads the loop keeps increase strictly. *)
Lemma kept_increasing uploads : forall i,
  StronglySorted (fun a b : Z * FileStorage => a.1 < b.1) (kept i uploads) /\
  Forall (fun a => i <= a.1) (kept i uploads).
Proof.
  induction uploads as [|f rest IH]; intros i; simpl; [by split; constructor|].
  destruct (IH (i + 1)) as [Hsorted Hlow].
  case_bool_decide.
  - split; [done|]. eapply Forall_impl; [done|]. simpl. lia.
  - split; constructor; simpl; try done; try lia;
      (eapply Forall_impl; [done|]; simpl; lia).
Qed.

Lemma stored_rows_increasing w rows ks :
  Forall2 (stored_as w) rows ks ->
  StronglySorted (fun a b : Z * FileStorage => a.1 < b.1) ks ->
  StronglySorted (fun a b => i_sort_order a < i_sort_order b) rows.
Proof.
  induction 1 as [|row k rows ks [Hk _] Hrest IH]; intros Hsorted; [constructor|].
  apply StronglySorted_inv in Hsorted as [Hsorted Hall].
  constructor; [by apply IH|].
  clear IH Hsorted. induction Hrest as [|row' k' rows ks [Hk' _] _ IH]; [constructor|].
  apply Forall_cons in Hall as [Hlt Hall]. constructor; [lia|by apply IH].
Qed.

End listing_facts.

Section workflow_facts.
Import Store.
Context `{Builtins}.

Lemma next_rowid_fresh seq ids : next_rowid seq ids ∉ ids.
Proof.
  assert (forall x, x ∈ ids -> x <= foldr Z.max seq ids) as Hmax.
  { induction ids as [|a ids IH]; intros x Hx; [by apply elem_of_nil in Hx|].
    simpl. apply elem_of_cons in Hx as [->|Hx]; [lia|]. apply IH in Hx. lia. }
  intros Hin. apply Hmax in Hin. unfold next_rowid in Hin. lia.
Qed.

Lemma filter_all {A} (P : A -> Prop) `{!forall x, Decision (P x)} (l : list A) :
  Forall P l -> filter P l = l.
Proof. induction 1; [done|]. rewrite filter_cons, decide_True by done. by f_equal. Qed.

Lemma filter_none {A} (P : A -> Prop) `{!forall x, Decision (P x)} (l : list A) :
  Forall (fun x => ~ P x) l -> filter P l = [].
Proof. induction 1; [done|]. by rewrite filter_cons, decide_False. Qed.

Lemma find_last_only {A} (f : A -> bool) (l : list A) (x : A) :
  Forall (fun y => f y = false) l -> f x = true -> List.find f (l ++ [x]) = Some x.
Proof.
  intros Hl Hx. induction Hl as [|y l Hy _ IH]; simpl; [by rewrite Hx|by rewrite Hy].
Qed.

(** The rows of a fresh product id: none of the old image rows, as long as
    every old image row belongs to an old product. *)
Lemma fresh_product_rows d product_id rows :
  images_have_product d -> product_id ∉ p_id <$> products d ->
  Forall (fun row => i_product_id row = product_id) rows ->
  filter (fun r => i_product_id r = product_id) (product_images d ++ rows) = rows /\
  filter (fun r => i_product_id r ≠ product_id) (product_images d ++ rows) = product_images d.
Proof.
  intros Hfk Hfresh Hrows.
  assert (Forall (fun r => i_product_id r ≠ product_id) (product_images d)) as Hold.
  { apply Forall_forall. intros r Hr <-. by apply Hfresh, Hfk. }
  rewrite !filter_app. split.
  - by rewrite filter_none, filter_all.
  - rewrite filter_all by done. rewrite filter_none; [by rewrite app_nil_r|].
    eapply Forall_impl; [exact Hrows|]. simpl. auto.
Qed.

(** What a [create_product] call that answers 201 has done. *)
Lemma create_product_created session form uploads created_at draws w view w' :
  create_product session form uploads created_at draws w = (Created view, w') ->
  exists p rows,
    (p_id p ∉ p_id <$> products (db w)) /\
    sellers (db w') = sellers (db w) /\
    products (db w') = products (db w) ++ [p] /\
    product_images (db w') = product_images (db w) ++ rows /\
    Forall (fun row => i_product_id row = p_id p) rows /\
    Forall2 (stored_as w') rows (kept 0 uploads) /\
    view = product_to_dict (p, joined_seller p (db w')) {[p_id p := i_filename <$> rows]}.
Proof.
  unfold create_product.
  destruct (logged_in session) as [seller_id|]; [|done].
  destruct (_ || _); [done|]. case_bool_decide; [done|].
  unfold insert_product.
  match goal with |- context [save_images ?a ?b ?c ?d ?e ?f ?g] =>
    destruct (save_images a b c d e f g) as [[r saved] w2] eqn:Hloop;
    set (product_id := a) in * end.
  destruct r as [[]|e|]; [|by destruct e|done].
  pose proof (save_images_other_tables _ _ _ _ _ _ _ _ _ _ Hloop) as (Hs & Hp & _).
  apply save_images_spec in Hloop as (rows & Himgs & -> & Hpid & _ & _ & Hstored);
    [|simpl; rewrite fmap_app; set_solver].
  simpl in Hs, Hp, Himgs. rewrite Hp.
  rewrite find_last_only; cycle 1.
  { apply Forall_forall. intros q Hq. apply bool_decide_eq_false_2. intros Hid.
    apply (next_rowid_fresh (seq_products (db w)) (p_id <$> products (db w))).
    unfold product_id in Hid. rewrite <- Hid. by apply list_elem_of_fmap_2. }
  { by apply bool_decide_eq_true_2. }
  intros [= <- <-].
  match type of Hp with _ = _ ++ [?p] => exists p, rows end. simpl.
  split; [apply next_rowid_fresh|]. by auto 10.
Qed.

(** Every listed product shows its image rows ordered by
    [(sort_order, id)]. *)
Lemma list_products_order d listed :
  listed ∈ list_products d ->
  exists shown,
    StronglySorted image_order shown /\
    shown ≡ₚ filter (fun r => i_product_id r = v_id listed) (product_images d) /\
    v_images listed = (fun r => "/uploads/" +:+ i_filename r) <$> shown.
Proof.
  intros (p & Hp & ->)%list_products_elem.
  exists (listed_rows d (p_id p)). split; [apply listed_rows_sorted|]. simpl.
  split; [apply listed_rows_perm; by apply list_elem_of_fmap_2|].
  rewrite lookup_singleton_eq. simpl. by rewrite <- list_fmap_compose.
Qed.

(** C5. When [create_product] answers 201, the image rows of the new
    product are the uploads it kept, in the order the client sent them: each
    row has the position of its upload as [sort_order] and names a file
    holding that upload's bytes.  The answer lists the images in that order,
    and the same entry is in what [list_products] returns afterwards.
    [list_products] orders every product's images by [sort_order], then
    [id]. *)
Theorem create_product_keeps_image_order
    session form uploads created_at draws w view w' :
  images_have_product (db w) ->
  create_product session form uploads created_at draws w = (Created view, w') ->
  let rows := filter (fun r => i_product_id r = v_id view) (product_images (db w')) in
  Forall2 (stored_as w') rows (kept 0 uploads) /\
  v_images view = (fun r => "/uploads/" +:+ i_filename r) <$> rows /\
  view ∈ list_products (db w') /\
  (forall listed, listed ∈ list_products (db w') ->
     exists shown,
       StronglySorted image_order shown /\
       shown ≡ₚ filter (fun r => i_product_id r = v_id listed) (product_images (db w')) /\
       v_images listed = (fun r => "/uploads/" +:+ i_filename r) <$> shown).
Proof.
  intros Hfk Hcreate.
  destruct (create_product_created _ _ _ _ _ _ _ _ Hcreate)
    as (p & rows & Hfresh & Hs & Hp & Himgs & Hpid & Hstored & ->).
  assert (v_id (product_to_dict (p, joined_seller p (db w'))
                  {[p_id p := i_filename <$> rows]}) = p_id p) as -> by done.
  destruct (fresh_product_rows _ _ _ Hfk Hfresh Hpid) as [Hmine _].
  rewrite <- Himgs in Hmine. cbv zeta.
  split; [by rewrite Hmine|]. split; [|split; [|apply list_products_order]].
  { rewrite Hmine. unfold product_to_dict. simpl.
    rewrite lookup_singleton_eq. simpl. by rewrite <- list_fmap_compose. }
  apply list_products_elem. exists p. split; [rewrite Hp; set_solver|].
  do 3 f_equal.
  pose proof (kept_increasing uploads 0) as [Hkept _].
  pose proof (stored_rows_increasing _ _ _ Hstored Hkept) as Hinc.
  symmetry. apply (StronglySorted_unique_strong image_order).
  - intros x1 x2 Hx1 Hx2 [?|[Heq _]] [?|[Heq' _]]; try lia.
    apply (increasing_key_inj i_sort_order rows); [done| |done|done].
    by rewrite <- Hmine, <- listed_rows_perm
      by (rewrite Hp, fmap_app; set_solver).
  - apply listed_rows_sorted.
  - eapply StronglySorted_weaken; [|exact Hinc]. intros a b Hlt. by left.
  - rewrite listed_rows_perm by (rewrite Hp, fmap_app; set_solver).
    by rewrite Hmine.
Qed.

End workflow_facts.

Section rollback_facts.
Import Store.
Context `{Builtins}.

Lemma old_products_stay d product_id (p : product) :
  product_id ∉ p_id <$> products d -> p_id p = product_id ->
  filter (fun q => p_id q ≠ product_id) (products d ++ [p]) = products d.
Proof.
  intros Hfresh Hp. rewrite filter_app, filter_all, filter_none.
  - apply app_nil_r.
  - constructor; [|constructor]. by intros Hne.
  - apply Forall_forall. intros q Hq Heq. apply Hfresh. rewrite <- Heq.
    by apply list_elem_of_fmap_2.
Qed.

(** When a [ValueError] ends the image loop, the handler's cleanup undoes
    the whole call: the three tables hold the rows they held before, and
    the upload directory holds the files it held before. *)
Lemma create_product_rejected_rolls_back
    session form uploads created_at draws w error w' :
  images_have_product (db w) ->
  create_product session form uploads created_at draws w = (ImageRejected error, w') ->
  sellers (db w') = sellers (db w) /\
  products (db w') = products (db w) /\
  product_images (db w') = product_images (db w) /\
  files w' = files w.
Proof.
  intros Hfk. unfold create_product.
  destruct (logged_in session) as [seller_id|]; [|done].
  destruct (_ || _); [done|]. case_bool_decide; [done|].
  unfold insert_product.
  match goal with |- context [save_images ?a ?b ?c ?d ?e ?f ?g] =>
    destruct (save_images a b c d e f g) as [[r saved] w2] eqn:Hloop;
    set (product_id := a) in * end.
  destruct r as [[]|e|]; [by destruct (List.find _ _)| |done].
  destruct e; try done. intros [= <- <-].
  pose proof (save_images_other_tables _ _ _ _ _ _ _ _ _ _ Hloop) as (Hs & Hp & _).
  apply save_images_spec in Hloop as (rows & Himgs & -> & Hpid & Hfiles & _);
    [|simpl; rewrite fmap_app; set_solver].
  simpl in *. rewrite Hs, Hp, Himgs.
  pose proof (next_rowid_fresh (seq_products (db w)) (p_id <$> products (db w))) as Hfresh.
  split; [done|]. split; [by apply old_products_stay|].
  split; [|done]. by apply fresh_product_rows.
Qed.

(** When any other exception ends the image loop, nothing is undone: the
    product row the call inserted is still there, without image rows, and
    so are the files the loop had written ([names]). *)
Lemma create_product_unhandled_leaves_product
    session form uploads created_at draws w e w' :
  create_product session form uploads created_at draws w = (Unhandled e, w') ->
  is_ValueError e = false /\
  exists p names,
    (p_id p ∉ p_id <$> products (db w)) /\
    products (db w') = products (db w) ++ [p] /\
    product_images (db w') = product_images (db w) /\
    remove_files names (files w') = files w /\
    (forall k v, files w !! k = Some v -> files w' !! k = Some v).
Proof.
  unfold create_product.
  destruct (logged_in session) as [seller_id|]; [|done].
  destruct (_ || _); [done|]. case_bool_decide; [done|].
  unfold insert_product.
  match goal with |- context [save_images ?a ?b ?c ?d ?e ?f ?g] =>
    destruct (save_images a b c d e f g) as [[r saved] w2] eqn:Hloop;
    set (product_id := a) in * end.
  pose proof (save_images_other_tables _ _ _ _ _ _ _ _ _ _ Hloop) as (_ & Hp & _).
  apply save_images_spec in Hloop as (rows & Himgs & -> & Hpid & Hfiles & Hkeep & _);
    [|simpl; rewrite fmap_app; set_solver].
  simpl in Hp, Himgs, Hfiles, Hkeep.
  destruct r as [[]|e'|]; [| |done].
  - rewrite Hp, find_last_only; [done| |by apply bool_decide_eq_true_2].
    apply Forall_forall. intros q Hq. apply bool_decide_eq_false_2. intros Hid.
    apply (next_rowid_fresh (seq_products (db w)) (p_id <$> products (db w))).
    unfold product_id in Hid. rewrite <- Hid. by apply list_elem_of_fmap_2.
  - match type of Hp with _ = _ ++ [?p] => set (new := p) in * end.
    destruct e'; try done; intros [= <- <-]; (split; [done|]);
      (exists new, (i_filename <$> rows); split; [apply next_rowid_fresh|]);
      simpl; by auto.
Qed.

End rollback_facts.

(** * Image rows and their products in reachable states *)

Section foreign_key_facts.
Import Store.
Context `{Builtins}.

(** What a [create_product] call leaves in the tables, whatever it answers:
    the rows that were there, or those and a new product with image rows of
    its own. *)
Lemma create_product_tables_cases session form uploads created_at draws w r w' :
  images_have_product (db w) ->
  create_product session form uploads created_at draws w = (r, w') ->
  (products (db w') = products (db w) /\ product_images (db w') = product_images (db w)) \/
  (exists p rows,
     products (db w') = products (db w) ++ [p] /\
     product_images (db w') = product_images (db w) ++ rows /\
     Forall (fun row => i_product_id row = p_id p) rows).
Proof.
  intros Hfk Hcreate. destruct r.
  - left. rewrite create_product_login_required in Hcreate; [by simplify_eq|].
    unfold create_product in Hcreate.
    destruct (logged_in session); [|done]. exfalso.
    repeat case_match; simplify_eq.
  - left. unfold create_product in Hcreate. repeat case_match; by simplify_eq.
  - left. unfold create_product in Hcreate. repeat case_match; by simplify_eq.
  - left. by apply create_product_rejected_rolls_back in Hcreate as (_ & ? & ? & _).
  - right. apply create_product_created in Hcreate
      as (q & rows & _ & _ & ? & ? & ? & _). by exists q, rows.
  - right. apply create_product_unhandled_leaves_product in Hcreate
      as (_ & q & names & _ & ? & Himgs & _).
    exists q, []. by rewrite app_nil_r.
  - right. unfold create_product in Hcreate.
    destruct (logged_in session) as [seller_id|]; [|done].
    destruct (_ || _); [done|]. case_bool_decide; [done|].
    unfold insert_product in Hcreate.
    repeat case_match; simplify_eq. simpl.
    eexists _, []. by rewrite app_nil_r.
Qed.

Lemma create_product_keeps_foreign_key session form uploads created_at draws w :
  images_have_product (db w) ->
  images_have_product (db (create_product session form uploads created_at draws w).2).
Proof.
  intros Hfk.
  destruct (create_product session form uploads created_at draws w) as [r w'] eqn:Hcreate.
  destruct (create_product_tables_cases _ _ _ _ _ _ _ _ Hfk Hcreate)
    as [[Hp Hi]|(p & rows & Hp & Hi & Hrows)];
    unfold images_have_product in *; simpl; rewrite Hp, Hi; [done|].
  intros row [Hold|Hnew]%elem_of_app; rewrite fmap_app, elem_of_app.
  - left. by apply Hfk.
  - right. rewrite Forall_forall in Hrows. rewrite (Hrows _ Hnew). simpl. by left.
Qed.

Lemma delete_product_keeps_foreign_key session product_id w :
  images_have_product (db w) ->
  images_have_product (db (delete_product session product_id w).2).
Proof.
  intros Hfk. unfold delete_product. repeat case_match; try done.
  unfold images_have_product. simpl.
  intros row [Hne Hrow]%list_elem_of_filter.
  apply Hfk, list_elem_of_fmap in Hrow as (q & Hid & Hq).
  apply list_elem_of_fmap. exists q. split; [done|].
  apply list_elem_of_filter. split; [congruence|done].
Qed.

Lemma step_keeps_foreign_key sys sys' :
  step sys sys' ->
  images_have_product (db (sys_world sys)) -> images_have_product (db (sys_world sys')).
Proof.
  intros [sys0 r session session' w' _ Hhandle] Hfk. simpl.
  destruct r; simpl in Hhandle.
  - destruct (sellers_register _ _ _ _ _) as [[res s'] d'] eqn:Hreg. simplify_eq. simpl.
    destruct (sellers_register_cases _ _ _ _ _ _ _ _ Hreg)
      as [[-> ->]|(id & name & whatsapp & c & ->)]; [done|].
    apply sellers_register_created in Hreg as (_ & _ & _ & _ & Hp & Hi & _).
    unfold images_have_product. by rewrite Hp, Hi.
  - by simplify_eq.
  - by simplify_eq.
  - by simplify_eq.
  - simplify_eq. by apply create_product_keeps_foreign_key.
  - simplify_eq. by apply delete_product_keeps_foreign_key.
Qed.

(** In every reachable state each image row belongs to a product row: the
    statements above that ask for it hold of every state the server gets
    into. *)
Lemma reachable_images_have_product sys :
  reachable sys -> images_have_product (db (sys_world sys)).
Proof.
  unfold reachable. revert sys. apply rtc_ind_r.
  - intros row Hrow. by apply elem_of_nil in Hrow.
  - intros sys1 sys2 _ Hstep IH. by eapply step_keeps_foreign_key.
Qed.

End foreign_key_facts.

(** * Listing, deleting, logging in: further properties of the handlers *)

Section more_handler_facts.
Import Store.
Context `{Builtins}.

(** [list_products] shows every product row once, newest first: the ids it
    lists are the ids of the table, in descending order. *)
Theorem list_products_newest_first d :
  v_id <$> list_products d ≡ₚ p_id <$> products d /\
  Sorted (fun a b : Z => b <= a) (v_id <$> list_products d).
Proof.
  unfold list_products. rewrite <- list_fmap_compose.
  assert (forall m (l : list product), (v_id ∘ (fun p => product_to_dict (p, joined_seller p d) m)) <$> l
                      = p_id <$> l) as Hids.
  { intros m l. by apply list_fmap_ext. }
  rewrite Hids. split; [by rewrite merge_sort_Permutation|].
  apply (Sorted_fmap _ id_desc); [done|].
  apply Sorted_merge_sort. intros a b. unfold id_desc. lia.
Qed.

(** [delete_product] deletes only for the seller the product belongs to:
    unless the session names the seller stored in the product row, nothing
    is written. *)
Theorem delete_product_owner_only session product_id w r w' :
  delete_product session product_id w = (r, w') ->
  (r = DelOk /\
   exists seller_id row,
     logged_in session = Some seller_id /\ row ∈ products (db w) /\
     p_id row = product_id /\ p_seller_id row = Some seller_id) \/
  (r ≠ DelOk /\ w' = w).
Proof.
  unfold delete_product.
  destruct (logged_in session) as [seller_id|]; [|intros [= <- <-]; by right].
  destruct (List.find _ _) as [row|] eqn:Hfind; [|intros [= <- <-]; by right].
  apply find_some in Hfind as [Hin Hid%bool_decide_eq_true].
  case_bool_decide as Hown; intros [= <- <-]; [by right|left].
  split; [done|]. exists seller_id, row. apply list_elem_of_In in Hin.
  by destruct (decide (p_seller_id row = Some seller_id)).
Qed.

Lemma remove_files_lookup names : forall (fls : gmap string bytes) k,
  remove_files names fls !! k = if bool_decide (k ∈ names) then None else fls !! k.
Proof.
  induction names as [|fn names IH]; intros fls k; [done|].
  unfold remove_files in *. simpl. rewrite IH.
  destruct (decide (k = fn)) as [->|Hne].
  - rewrite lookup_delete_eq. rewrite (bool_decide_eq_true_2 (fn ∈ fn :: names)) by set_solver.
    by case_bool_decide.
  - rewrite lookup_delete_ne by done.
    by rewrite (bool_decide_ext (k ∈ fn :: names) (k ∈ names)) by set_solver.
Qed.

(** A successful [delete_product] removes the product row, every image row
    of that product (the cascade) and every file those rows name; it leaves
    the sellers, the other products, the other image rows and all other
    files as they were. *)
Theorem delete_product_cascades session product_id w w' :
  delete_product session product_id w = (DelOk, w') ->
  sellers (db w') = sellers (db w) /\
  products (db w') = filter (fun p => p_id p ≠ product_id) (products (db w)) /\
  product_images (db w') =
    filter (fun r => i_product_id r ≠ product_id) (product_images (db w)) /\
  (forall k, files w' !! k =
     if bool_decide (k ∈ i_filename <$> filter (fun r => i_product_id r = product_id)
                                           (product_images (db w)))
     then None else files w !! k).
Proof.
  unfold delete_product.
  destruct (logged_in session) as [seller_id|]; [|done].
  destruct (List.find _ _) as [row|]; [|done].
  case_bool_decide; [done|]. intros [= <-]. simpl.
  repeat split. intros k. apply remove_files_lookup.
Qed.

Lemma next_rowid_above seq ids : seq < next_rowid seq ids.
Proof.
  unfold next_rowid. assert (seq <= foldr Z.max seq ids); [|lia].
  induction ids as [|a ids IH]; simpl; lia.
Qed.

Lemma kept_length uploads : forall i, (length (kept i uploads) <= length uploads)%nat.
Proof.
  induction uploads as [|f rest IH]; intros i; simpl; [done|].
  case_bool_decide; simpl; specialize (IH (i + 1)); lia.
Qed.

(** What a [create_product] call does to the store, whatever it answers.
    The sellers are as they were and no file that existed is changed.
    Either the products and image rows are as they were too, or there is
    one new product row, under a key above every key used before, with the
    session's seller, a name and details that are not empty and a price that
    is not negative, and with at most five image rows of its own. *)
Lemma create_product_effect session form uploads created_at draws w r w' :
  images_have_product (db w) ->
  create_product session form uploads created_at draws w = (r, w') ->
  sellers (db w') = sellers (db w) /\
  seq_sellers (db w') = seq_sellers (db w) /\
  (forall k v, files w !! k = Some v -> files w' !! k = Some v) /\
  ((products (db w') = products (db w) /\
    product_images (db w') = product_images (db w) /\
    seq_products (db w) <= seq_products (db w')) \/
   (exists seller_id p rows,
      logged_in session = Some seller_id /\
      p_seller_id p = Some seller_id /\
      p_id p = next_rowid (seq_products (db w)) (p_id <$> products (db w)) /\
      seq_products (db w') = p_id p /\
      p_name p ≠ [] /\ p_details p ≠ [] /\ float_lt0 (p_price p) = false /\
      products (db w') = products (db w) ++ [p] /\
      product_images (db w') = product_images (db w) ++ rows /\
      Forall (fun row => i_product_id row = p_id p) rows /\
      (length rows <= 5)%nat /\
      (forall view, r = Created view ->
         remove_files (i_filename <$> rows) (files w') = files w))).
Proof.
  intros Hfk. unfold create_product.
  destruct (logged_in session) as [seller_id|] eqn:Hlogin;
    [|intros ?; simplify_eq; split_and!; try done; left; split_and!; done].
  destruct (_ || _ || _) eqn:Hvalid;
    [intros ?; simplify_eq; split_and!; try done; left; split_and!; done|].
  apply orb_false_elim in Hvalid as [Hvalid Hdetails%bool_decide_eq_false].
  apply orb_false_elim in Hvalid as [Hname%bool_decide_eq_false Hprice].
  destruct (bool_decide (len_list uploads > 5)) eqn:Hmany;
    [intros ?; simplify_eq; split_and!; try done; left; split_and!; done|].
  apply bool_decide_eq_false in Hmany.
  assert (float_lt0 (default FNan (pf_price form ≫= float_of_str)) = false) as Hprice'.
  { by destruct (pf_price form ≫= float_of_str). }
  unfold insert_product.
  match goal with |- context [save_images ?a ?b ?c ?d ?e ?f ?g] =>
    destruct (save_images a b c d e f g) as [[o saved] w2] eqn:Hloop;
    set (product_id := a) in * end.
  pose proof (save_images_other_tables _ _ _ _ _ _ _ _ _ _ Hloop) as (Hs & Hp & Hss & Hsp).
  apply save_images_spec in Hloop as (rows & Himgs & -> & Hpid & Hfiles & Hkeep & Hstored);
    [|simpl; rewrite fmap_app; set_solver].
  simpl in Hs, Hp, Hss, Hsp, Himgs, Hfiles, Hkeep.
  pose proof (next_rowid_fresh (seq_products (db w)) (p_id <$> products (db w))) as Hfresh.
  pose proof (next_rowid_above (seq_products (db w)) (p_id <$> products (db w))) as Habove.
  fold product_id in Hfresh, Habove.
  match type of Hp with _ = _ ++ [?p] => set (new := p) in * end.
  assert (forall (res : create_result) d2 fls2 rows2,
    products d2 = products (db w) ++ [new] ->
    product_images d2 = product_images (db w) ++ rows2 ->
    seq_products d2 = product_id ->
    Forall (fun row => i_product_id row = product_id) rows2 ->
    (length rows2 <= 5)%nat ->
    (forall view, res = Created view ->
       remove_files (i_filename <$> rows2) fls2 = files w) ->
    exists seller_id0 p rows0,
      Some seller_id = Some seller_id0 /\
      p_seller_id p = Some seller_id0 /\
      p_id p = product_id /\
      seq_products d2 = p_id p /\
      p_name p ≠ [] /\ p_details p ≠ [] /\ float_lt0 (p_price p) = false /\
      products d2 = products (db w) ++ [p] /\
      product_images d2 = product_images (db w) ++ rows0 /\
      Forall (fun row => i_product_id row = p_id p) rows0 /\
      (length rows0 <= 5)%nat /\
      (forall view, res = Created view ->
         remove_files (i_filename <$> rows0) fls2 = files w)) as Hadded.
  { intros res d2 fls2 rows2 ? ? ? ? ? ?. exists seller_id, new, rows2. split_and!; done. }
  destruct o as [[]|e|].
  - rewrite Hp, find_last_only; cycle 1.
    { apply Forall_forall. intros q Hq. apply bool_decide_eq_false_2. intros Hid.
      apply Hfresh. rewrite <- Hid. by apply list_elem_of_fmap_2. }
    { by apply bool_decide_eq_true_2. }
    intros ?; simplify_eq. split_and!; try done. right.
    apply (Hadded _ _ _ rows); try done.
    specialize (Hstored eq_refl). apply Forall2_length in Hstored. rewrite Hstored.
    pose proof (kept_length uploads 0). unfold len_list in Hmany. lia.
  - destruct e as [msg| |msg|msg|cls].
    2-5: (intros ?; simplify_eq;
          split_and!; [done|done|intros k v Hk; by apply Hkeep|]; right;
          apply (Hadded _ _ _ []);
          [done|by rewrite app_nil_r|done|constructor|simpl; lia|done]).
    intros ?; simplify_eq. simpl. split_and!; [done|done| |].
    + intros k v Hk. by rewrite Hfiles.
    + left. rewrite Hp, Himgs. split_and!.
      * by apply old_products_stay.
      * by apply fresh_product_rows.
      * rewrite Hsp. simpl. lia.
  - intros ?; simplify_eq. split_and!; [done|done|intros k v Hk; by apply Hkeep|]. right.
    apply (Hadded _ _ _ []);
      [done|by rewrite app_nil_r|done|constructor|simpl; lia|done].
Qed.

(** What a registration does to the tables: nothing, or one new seller row
    under a new key and a number no seller had, with fields that passed the
    checks. *)
Lemma sellers_register_effect data created_at pin_hash session d r session' d' :
  sellers_register data created_at pin_hash session d = (r, session', d') ->
  (d' = d /\ session' = session) \/
  (exists row,
     sellers d' = sellers d ++ [row] /\
     s_id row = next_rowid (seq_sellers d) (s_id <$> sellers d) /\
     seq_sellers d' = s_id row /\ session' = Some (s_id row) /\
     (s_whatsapp row ∉ s_whatsapp <$> sellers d) /\
     seller_row_valid row /\
     products d' = products d /\ product_images d' = product_images d /\
     seq_products d' = seq_products d).
Proof.
  unfold sellers_register.
  destruct (_ || _) eqn:Hname; [intros ?; simplify_eq; by left|].
  destruct (bool_decide (_ = []) || bool_decide (len _ < 10)) eqn:Hphone;
    [intros ?; simplify_eq; by left|].
  destruct (negb _ || _); [intros ?; simplify_eq; by left|].
  apply orb_false_elim in Hname as [Hlo%bool_decide_eq_false Hhi%bool_decide_eq_false].
  apply orb_false_elim in Hphone as [_ Hlen%bool_decide_eq_false].
  unfold insert_seller. destruct (bool_decide (_ ∈ _)) eqn:Htaken;
    [intros ?; simplify_eq; by left|].
  apply bool_decide_eq_false in Htaken.
  intros ?; simplify_eq. right. eexists. simpl. split; [done|].
  split_and!; try done. unfold seller_row_valid. simpl.
  split_and!; try lia. apply normalize_canonical.
Qed.

(** ** The tables stay well-formed *)

Lemma filtered_keys_NoDup {A} (key : A -> Z) (P : A -> Prop) `{!forall x, Decision (P x)}
    (l : list A) :
  NoDup (key <$> l) -> NoDup (key <$> filter P l).
Proof.
  intros Hdup. eapply sublist_NoDup; [exact Hdup|].
  apply fmap_sublist, sublist_filter.
Qed.

Lemma store_ok_bump d d' :
  store_ok d ->
  sellers d' = sellers d -> products d' = products d ->
  product_images d' = product_images d ->
  seq_sellers d' = seq_sellers d -> seq_products d <= seq_products d' ->
  store_ok d'.
Proof.
  intros (Hfk & (Hss & Hsp & Hks & Hkp) & (Hus & Huw & Hup) & Hvs & Hvp & Hfive)
    Hs Hp Hi Hseq Hseq'.
  unfold store_ok, images_have_product, keys_counted, keys_unique, at_most_five_images in *.
  rewrite Hs, Hp, Hi, Hseq. split_and!; try done; try lia.
  eapply Forall_impl; [exact Hkp|]. simpl. lia.
Qed.

Lemma store_ok_add_seller d d' row :
  store_ok d ->
  sellers d' = sellers d ++ [row] ->
  s_id row = next_rowid (seq_sellers d) (s_id <$> sellers d) ->
  seq_sellers d' = s_id row ->
  s_whatsapp row ∉ s_whatsapp <$> sellers d ->
  seller_row_valid row ->
  products d' = products d -> product_images d' = product_images d ->
  seq_products d' = seq_products d ->
  store_ok d'.
Proof.
  intros (Hfk & (Hss & Hsp & Hks & Hkp) & (Hus & Huw & Hup) & Hvs & Hvp & Hfive)
    Hs Hid Hseq Hphone Hvalid Hp Hi Hseqp.
  pose proof (next_rowid_fresh (seq_sellers d) (s_id <$> sellers d)) as Hfresh.
  pose proof (next_rowid_above (seq_sellers d) (s_id <$> sellers d)) as Habove.
  rewrite <- Hid in Hfresh, Habove.
  unfold store_ok, images_have_product, keys_counted, keys_unique, at_most_five_images in *.
  rewrite Hs, Hp, Hi, Hseq, Hseqp, !fmap_app. simpl. split_and!; try done.
  - lia.
  - apply Forall_app. split; [|constructor; [lia|constructor]].
    eapply Forall_impl; [exact Hks|]. simpl. lia.
  - apply NoDup_app. split_and!; [done| |apply NoDup_singleton].
    intros x Hx ->%list_elem_of_singleton. done.
  - apply NoDup_app. split_and!; [done| |apply NoDup_singleton].
    intros x Hx ->%list_elem_of_singleton. done.
  - apply Forall_app. split; [done|]. by constructor.
Qed.

Lemma store_ok_add_product d d' p rows :
  store_ok d ->
  products d' = products d ++ [p] ->
  product_images d' = product_images d ++ rows ->
  p_id p = next_rowid (seq_products d) (p_id <$> products d) ->
  seq_products d' = p_id p ->
  product_row_valid p ->
  Forall (fun row => i_product_id row = p_id p) rows ->
  (length rows <= 5)%nat ->
  sellers d' = sellers d -> seq_sellers d' = seq_sellers d ->
  store_ok d'.
Proof.
  intros (Hfk & (Hss & Hsp & Hks & Hkp) & (Hus & Huw & Hup) & Hvs & Hvp & Hfive)
    Hp Hi Hid Hseq Hvalid Hrows Hlen Hs Hseqs.
  pose proof (next_rowid_fresh (seq_products d) (p_id <$> products d)) as Hfresh.
  pose proof (next_rowid_above (seq_products d) (p_id <$> products d)) as Habove.
  rewrite <- Hid in Hfresh, Habove.
  unfold store_ok, images_have_product, keys_counted, keys_unique, at_most_five_images in *.
  rewrite Hs, Hp, Hi, Hseq, Hseqs, !fmap_app. simpl. split_and!; try done.
  - intros row [Hold|Hnew]%elem_of_app; apply elem_of_app.
    + left. by apply Hfk.
    + right. rewrite Forall_forall in Hrows. rewrite (Hrows _ Hnew). by left.
  - lia.
  - apply Forall_app. split; [|constructor; [lia|constructor]].
    eapply Forall_impl; [exact Hkp|]. simpl. lia.
  - apply NoDup_app. split_and!; [done| |apply NoDup_singleton].
    intros x Hx ->%list_elem_of_singleton. done.
  - apply Forall_app. split; [done|]. by constructor.
  - intros product_id. rewrite filter_app, length_app.
    destruct (decide (product_id = p_id p)) as [->|Hne].
    + destruct (fresh_product_rows d (p_id p) rows) as [Hmine _]; [done..|].
      rewrite filter_app in Hmine.
      rewrite (filter_none _ (product_images d)).
      * simpl. pose proof (length_filter (fun r => i_product_id r = p_id p) rows). lia.
      * apply Forall_forall. intros r Hr Heq. apply Hfresh. rewrite <- Heq. by apply Hfk.
    + rewrite (filter_none _ rows).
      * simpl. specialize (Hfive product_id). lia.
      * eapply Forall_impl; [exact Hrows|]. simpl. congruence.
Qed.

Lemma store_ok_delete_product d d' product_id :
  store_ok d ->
  products d' = filter (fun p => p_id p ≠ product_id) (products d) ->
  product_images d' = filter (fun r => i_product_id r ≠ product_id) (product_images d) ->
  sellers d' = sellers d -> seq_sellers d' = seq_sellers d ->
  seq_products d' = seq_products d ->
  store_ok d'.
Proof.
  intros (Hfk & (Hss & Hsp & Hks & Hkp) & (Hus & Huw & Hup) & Hvs & Hvp & Hfive)
    Hp Hi Hs Hseqs Hseqp.
  unfold store_ok, images_have_product, keys_counted, keys_unique, at_most_five_images in *.
  rewrite Hs, Hp, Hi, Hseqs, Hseqp. split_and!; try done.
  - intros row [Hne Hrow]%list_elem_of_filter.
    apply Hfk, list_elem_of_fmap in Hrow as (q & Hid & Hq).
    apply list_elem_of_fmap. exists q. split; [done|].
    apply list_elem_of_filter. split; [congruence|done].
  - rewrite Forall_forall in *. intros id (q & -> & [_ Hq]%list_elem_of_filter)%list_elem_of_fmap.
    apply Hkp. by apply list_elem_of_fmap_2.
  - by apply filtered_keys_NoDup.
  - rewrite Forall_forall in *. intros q [_ Hq]%list_elem_of_filter. by apply Hvp.
  - intros pid. rewrite list_filter_filter.
    etrans; [|apply (Hfive pid)].
    apply sublist_length.
    rewrite <- (list_filter_filter_l (fun r => i_product_id r = pid ∧ i_product_id r ≠ product_id)
                  (fun r => i_product_id r = pid)) by naive_solver.
    apply sublist_filter.
Qed.

Lemma logged_in_nonzero session seller_id :
  logged_in session = Some seller_id -> seller_id ≠ 0.
Proof.
  unfold logged_in, current_seller_id. destruct session as [sid|]; [|done].
  case_bool_decide; [done|]. congruence.
Qed.

Lemma delete_product_effect session product_id w r w' :
  delete_product session product_id w = (r, w') ->
  w' = w \/
  (r = DelOk /\
   products (db w') = filter (fun p => p_id p ≠ product_id) (products (db w)) /\
   product_images (db w') =
     filter (fun r => i_product_id r ≠ product_id) (product_images (db w)) /\
   sellers (db w') = sellers (db w) /\ seq_sellers (db w') = seq_sellers (db w) /\
   seq_products (db w') = seq_products (db w)).
Proof.
  unfold delete_product. repeat case_match; intros ?; simplify_eq; auto.
  right. by split_and!.
Qed.

Lemma step_keeps_store_ok sys sys' :
  step sys sys' -> store_ok (db (sys_world sys)) -> store_ok (db (sys_world sys')).
Proof.
  intros [sys0 r session session' w' _ Hhandle] Hok. simpl.
  destruct r; simpl in Hhandle.
  - destruct (sellers_register _ _ _ _ _) as [[res s'] d'] eqn:Hreg. simplify_eq. simpl.
    destruct (sellers_register_effect _ _ _ _ _ _ _ _ Hreg)
      as [[-> _]|(row & ? & ? & ? & _ & ? & ? & ? & ? & ?)]; [done|].
    by eapply store_ok_add_seller.
  - by simplify_eq.
  - by simplify_eq.
  - by simplify_eq.
  - destruct (create_product _ _ _ _ _ _) as [res w2] eqn:Hcreate. simplify_eq. simpl.
    pose proof Hok as (Hfk & _).
    destruct (create_product_effect _ _ _ _ _ _ _ _ Hfk Hcreate)
      as (Hs & Hss & _ & [(Hp & Hi & Hseq)|
           (sid & p & rows & Hlogin & Hsid & Hid & Hseq & Hn & Hd & Hpr & Hp & Hi & Hrows & Hlen & _)]).
    + by eapply store_ok_bump.
    + eapply store_ok_add_product; try done.
      split_and!; try done. exists sid. split; [done|]. by eapply logged_in_nonzero.
  - destruct (delete_product _ _ _) as [res w2] eqn:Hdelete. simplify_eq. simpl.
    destruct (delete_product_effect _ _ _ _ _ Hdelete)
      as [->|(_ & ? & ? & ? & ? & ?)]; [done|].
    by eapply store_ok_delete_product.
Qed.

Lemma empty_store_ok : store_ok empty_database.
Proof.
  unfold store_ok, images_have_product, keys_counted, keys_unique, at_most_five_images.
  simpl. split_and!; try done; try apply NoDup_nil_2; try apply Forall_nil_2.
  - intros r Hr. by apply elem_of_nil in Hr.
  - intros product_id. simpl. lia.
Qed.

Lemma reachable_store_ok sys : reachable sys -> store_ok (db (sys_world sys)).
Proof.
  unfold reachable. revert sys. apply rtc_ind_r; [apply empty_store_ok|].
  intros sys1 sys2 _ Hstep IH. by eapply step_keeps_store_ok.
Qed.

Lemma later_reachable sys sys' : reachable sys -> rtc step sys sys' -> reachable sys'.
Proof. unfold reachable. intros. by etrans. Qed.

Lemma reachable_references sys :
  reachable sys -> sellers_exist (db (sys_world sys)) /\ cookies_valid sys.
Proof.
  unfold reachable. revert sys. apply rtc_ind_r.
  - split; intros x; simpl; [intros ? Hin|intros Hin]; by apply elem_of_nil in Hin.
  - intros sys1 sys2 _ Hstep IH. by eapply step_preserves.
Qed.


(** In every reachable state each seller row has a name of 2 to 60
    characters and a number of at least ten characters that is digits, or
    ['+'] and digits. *)
Theorem reachable_sellers_valid sys s :
  reachable sys -> s ∈ sellers (db (sys_world sys)) ->
  2 <= len (s_name s) <= 60 /\ len (s_whatsapp s) >= 10 /\ canonical (s_whatsapp s).
Proof.
  intros Hreach Hs. destruct (reachable_store_ok _ Hreach) as (_ & _ & _ & Hvalid & _).
  rewrite Forall_forall in Hvalid. by apply Hvalid.
Qed.

(** In every reachable state each product row has a name and details that
    are not empty, a price that is not negative, and a seller key that is
    set and not 0. *)
Theorem reachable_products_valid sys p :
  reachable sys -> p ∈ products (db (sys_world sys)) ->
  p_name p ≠ [] /\ p_details p ≠ [] /\ float_lt0 (p_price p) = false /\
  exists seller_id, p_seller_id p = Some seller_id /\ seller_id ≠ 0.
Proof.
  intros Hreach Hp. destruct (reachable_store_ok _ Hreach) as (_ & _ & _ & _ & Hvalid & _).
  rewrite Forall_forall in Hvalid. by apply Hvalid.
Qed.

(** In every reachable state a product has at most five image rows. *)
Theorem reachable_at_most_five_images sys product_id :
  reachable sys ->
  (length (filter (fun r => i_product_id r = product_id)
             (product_images (db (sys_world sys)))) <= 5)%nat.
Proof.
  intros Hreach. destruct (reachable_store_ok _ Hreach) as (_ & _ & _ & _ & _ & Hfive).
  apply Hfive.
Qed.

(** ** Keys are not handed out twice *)





(** ** The seller behind a session, a product, a login *)

Lemma find_key {A} (key : A -> Z) (l : list A) k :
  k ∈ key <$> l ->
  exists x, List.find (fun y => bool_decide (key y = k)) l = Some x /\ x ∈ l /\ key x = k.
Proof.
  intros (x & -> & Hx)%list_elem_of_fmap.
  destruct (List.find _ l) as [y|] eqn:Hfind.
  - apply find_some in Hfind as [Hin Hy%bool_decide_eq_true].
    exists y. by rewrite <- list_elem_of_In in Hin.
  - apply list_elem_of_In in Hx. eapply find_none in Hfind; [|exact Hx].
    simpl in Hfind. by rewrite bool_decide_eq_true_2 in Hfind.
Qed.

(** In every reachable state [list_products] shows, with each product, the
    seller who created it: the seller entry is there and carries the key,
    the name and the number of a seller row. *)
Theorem reachable_listing_names_seller sys view :
  reachable sys -> view ∈ list_products (db (sys_world sys)) ->
  exists s, s ∈ sellers (db (sys_world sys)) /\
    v_seller_id view = Some (s_id s) /\
    v_seller view = Some (s_id s, Some (s_name s), Some (s_whatsapp s)).
Proof.
  intros Hreach (p & Hp & ->)%list_products_elem.
  destruct (reachable_store_ok _ Hreach) as (_ & _ & _ & _ & Hvalid & _).
  rewrite Forall_forall in Hvalid.
  destruct (Hvalid _ Hp) as (_ & _ & _ & sid & Hsid & Hnz).
  destruct (reachable_references _ Hreach) as [Hrefs _].
  destruct (find_key s_id _ _ (Hrefs _ _ Hp Hsid)) as (s & Hfind & Hs & Hkey).
  exists s. split; [done|]. unfold product_to_dict, joined_seller. simpl.
  rewrite Hsid, Hfind, bool_decide_eq_false_2 by done. simpl. by rewrite Hkey.
Qed.

(** A session cookie the server issued always resolves: in every reachable
    state [sellers_me] answers such a session with the seller row of that
    key. *)
Theorem reachable_session_resolves sys seller_id :
  reachable sys -> seller_id ∈ sys_cookies sys ->
  exists row, row ∈ sellers (db (sys_world sys)) /\ s_id row = seller_id /\
    sellers_me (Some seller_id) (db (sys_world sys))
      = MeOk seller_id (s_name row) (s_whatsapp row) (s_created_at row).
Proof.
  intros Hreach Hcookie.
  destruct (reachable_references _ Hreach) as [_ Hcookies].
  destruct (reachable_store_ok _ Hreach) as (_ & (_ & _ & Hcounted & _) & _).
  pose proof (Hcookies _ Hcookie) as Hin.
  rewrite Forall_forall in Hcounted. pose proof (Hcounted _ Hin) as Hpos.
  destruct (find_key s_id _ _ Hin) as (row & Hfind & Hrow & Hkey).
  exists row. split_and!; [done..|].
  unfold sellers_me, get_current_seller_row, logged_in, current_seller_id.
  rewrite bool_decide_eq_false_2 by lia. by rewrite Hfind, Hkey.
Qed.

(** What a registration answers is what [sellers_me] answers right after it
    with the session the registration set (the key counter of the table
    not being negative). *)
Theorem register_then_me data created_at pin_hash session d id name whatsapp c session' d' :
  0 <= seq_sellers d ->
  sellers_register data created_at pin_hash session d
    = (RegCreated id name whatsapp c, session', d') ->
  sellers_me session' d' = MeOk id name whatsapp c.
Proof.
  intros Hseq Hreg.
  pose proof (sellers_register_created _ _ _ _ _ _ _ _ _ _ _ Hreg)
    as (_ & _ & -> & Hsellers & _ & _ & Hid).
  pose proof (next_rowid_above (seq_sellers d) (s_id <$> sellers d)) as Habove.
  pose proof (next_rowid_fresh (seq_sellers d) (s_id <$> sellers d)) as Hfresh.
  rewrite <- Hid in Habove, Hfresh.
  unfold sellers_me, get_current_seller_row, logged_in, current_seller_id.
  rewrite bool_decide_eq_false_2 by lia. rewrite Hsellers.
  rewrite find_last_only; [done| |by apply bool_decide_eq_true_2].
  apply Forall_forall. intros s Hs. apply bool_decide_eq_false_2. intros Heq.
  apply Hfresh. rewrite <- Heq. by apply list_elem_of_fmap_2.
Qed.

(** A login succeeds only against a stored row: whenever [sellers_login]
    answers with a seller, that seller's row carries the normalized number
    of the request and a hash the PIN of the request checks against, and the
    session then names that seller; in every other case the session is left
    as it was. *)
Theorem sellers_login_sound data session d r session' :
  sellers_login data session d = (r, session') ->
  (exists row,
     row ∈ sellers d /\
     s_whatsapp row = normalize_whatsapp (default [] (sf_whatsapp data)) /\
     check_password_hash (s_pin_hash row) (strip (default [] (sf_pin data))) = true /\
     r = LoginOk (s_id row) (s_name row) (s_whatsapp row) (s_created_at row) /\
     session' = Some (s_id row)) \/
  ((r = LoginBadRequest \/ r = LoginInvalidCredentials) /\ session' = session).
Proof.
  unfold sellers_login.
  destruct (_ || _); [intros ?; simplify_eq; right; auto|].
  destruct (List.find _ _) as [row|] eqn:Hfind; [|intros ?; simplify_eq; right; auto].
  apply find_some in Hfind as [Hin Hw%bool_decide_eq_true].
  destruct (check_password_hash _ _) eqn:Hpin; intros ?; simplify_eq; [left|right; auto].
  exists row. apply list_elem_of_In in Hin. by split_and!.
Qed.

(** After a registration succeeded, a login with a number that normalizes
    to the same string and a PIN the stored hash accepts is answered with
    that seller and sets the session to that seller, however the number is
    written. *)
Theorem register_then_login
    data1 created_at pin_hash session1 d id name whatsapp c session1' d1 data2 session2 :
  sellers_register data1 created_at pin_hash session1 d
    = (RegCreated id name whatsapp c, session1', d1) ->
  normalize_whatsapp (default [] (sf_whatsapp data2))
    = normalize_whatsapp (default [] (sf_whatsapp data1)) ->
  strip (default [] (sf_pin data2)) ≠ [] ->
  check_password_hash pin_hash (strip (default [] (sf_pin data2))) = true ->
  sellers_login data2 session2 d1 = (LoginOk id name whatsapp c, Some id).
Proof.
  intros Hreg Hsame Hpin Hcheck.
  destruct (sellers_register_effect _ _ _ _ _ _ _ _ Hreg)
    as [[-> _]|(row & Hsellers & _ & _ & _ & Hnew & _)].
  { apply sellers_register_created in Hreg as (_ & _ & _ & Hs & _).
    apply (f_equal length) in Hs. rewrite length_app in Hs. simpl in Hs. lia. }
  pose proof (sellers_register_created _ _ _ _ _ _ _ _ _ _ _ Hreg)
    as (Hw & Hlen & _ & Hsellers' & _).
  rewrite Hsellers' in Hsellers. apply app_inv_head in Hsellers. simplify_eq. simpl in *.
  unfold sellers_login. rewrite Hsame.
  rewrite (bool_decide_eq_false_2 (normalize_whatsapp _ = [])); cycle 1.
  { intros Hnil. rewrite Hnil in Hlen. unfold len in Hlen. simpl in Hlen. lia. }
  rewrite (bool_decide_eq_false_2 (strip _ = [])) by done. simpl.
  rewrite Hsellers'.
  rewrite find_last_only; [simpl; by rewrite Hcheck| |by apply bool_decide_eq_true_2].
  apply Forall_forall. intros s Hs. apply bool_decide_eq_false_2. intros Heq.
  apply Hnew. rewrite <- Heq. by apply list_elem_of_fmap_2.
Qed.

(** ** Creating, then deleting *)

(** When an upload is refused with a [ValueError] (its bytes decode, but as
    a format outside the list), [create_product] answers 400 and has undone
    the whole call: the seller, product and image rows and the files are
    those from before the call. *)
Theorem create_product_value_error_rolls_back
    session form uploads created_at draws w error w' :
  images_have_product (db w) ->
  create_product session form uploads created_at draws w = (ImageRejected error, w') ->
  sellers (db w') = sellers (db w) /\
  products (db w') = products (db w) /\
  product_images (db w') = product_images (db w) /\
  files w' = files w.
Proof. apply create_product_rejected_rolls_back. Qed.

(** In every reachable state each image row belongs to a product row that
    exists: the insert checks it, the delete cascades. *)
Theorem reachable_images_belong_to_products sys r :
  reachable sys -> r ∈ product_images (db (sys_world sys)) ->
  i_product_id r ∈ p_id <$> products (db (sys_world sys)).
Proof. intros Hreach. by apply reachable_images_have_product. Qed.

(** No handler removes or changes a seller row: every seller row of a state
    is still there, unchanged, in every state the server gets to from it. *)
Theorem seller_rows_stay sys sys' s :
  rtc step sys sys' -> s ∈ sellers (db (sys_world sys)) ->
  s ∈ sellers (db (sys_world sys')).
Proof. intros Hsteps. by apply steps_sellers_grow. Qed.

(** [create_product] never changes or removes a file that was in the upload
    directory before the call, whatever it answers. *)
Theorem create_product_keeps_existing_files
    session form uploads created_at draws w r w' k v :
  create_product session form uploads created_at draws w = (r, w') ->
  files w !! k = Some v -> files w' !! k = Some v.
Proof.
  unfold create_product.
  destruct (logged_in session) as [seller_id|]; [|by intros ?; simplify_eq].
  destruct (_ || _ || _); [by intros ?; simplify_eq|].
  destruct (bool_decide (len_list uploads > 5)); [by intros ?; simplify_eq|].
  unfold insert_product.
  match goal with |- context [save_images ?a ?b ?c ?d ?e ?f ?g] =>
    destruct (save_images a b c d e f g) as [[o saved] w2] eqn:Hloop end.
  apply save_images_spec in Hloop as (rows & _ & -> & _ & Hfiles & Hkeep & _);
    [|simpl; rewrite fmap_app; set_solver].
  simpl in Hfiles, Hkeep. intros Hres Hk.
  destruct o as [[]|e|].
  - destruct (List.find _ _); simplify_eq; by apply Hkeep.
  - destruct e; simplify_eq; simpl; try by apply Hkeep.
    by rewrite Hfiles.
  - simplify_eq. by apply Hkeep.
Qed.

(** Deleting a product right after it was created, by the same session,
    succeeds and gives back the store as it was before the creation: the
    same seller, product and image rows, and the same files. *)
Theorem create_then_delete session form uploads created_at draws w view w1 :
  images_have_product (db w) ->
  create_product session form uploads created_at draws w = (Created view, w1) ->
  exists w2,
    delete_product session (v_id view) w1 = (DelOk, w2) /\
    sellers (db w2) = sellers (db w) /\
    products (db w2) = products (db w) /\
    product_images (db w2) = product_images (db w) /\
    files w2 = files w.
Proof.
  intros Hfk Hcreate.
  destruct (create_product_effect _ _ _ _ _ _ _ _ Hfk Hcreate)
    as (Hs & _ & _ & [(Hsame & _)|
         (sid & p & rows & Hlogin & Hsid & Hid & _ & _ & _ & _ & Hp & Hi & Hrows & _ & Hfiles)]).
  { apply create_product_created in Hcreate as (q & ? & _ & _ & Hq & _).
    rewrite Hsame in Hq. apply (f_equal length) in Hq.
    rewrite length_app in Hq. simpl in Hq. lia. }
  specialize (Hfiles view eq_refl).
  pose proof (next_rowid_fresh (seq_products (db w)) (p_id <$> products (db w))) as Hfresh.
  rewrite <- Hid in Hfresh.
  assert (v_id view = p_id p) as ->.
  { apply create_product_created in Hcreate as (q & rows' & _ & _ & Hq & _ & _ & _ & ->).
    rewrite Hp in Hq. apply app_inv_head in Hq. by simplify_eq. }
  destruct (fresh_product_rows _ _ _ Hfk Hfresh Hrows) as [Hmine Hothers].
  unfold delete_product. rewrite Hlogin, Hp.
  rewrite find_last_only; cycle 1.
  { apply Forall_forall. intros q Hq. apply bool_decide_eq_false_2. intros Heq.
    apply Hfresh. rewrite <- Heq. by apply list_elem_of_fmap_2. }
  { by apply bool_decide_eq_true_2. }
  rewrite bool_decide_eq_false_2 by (by intros []).
  eexists. split; [done|]. simpl. rewrite Hp, Hi, Hmine, Hothers.
  split_and!; [done|by apply old_products_stay|done|done].
Qed.

End more_handler_facts.

(** * Further properties of the image intake and of the normalization *)

Section more_intake_facts.
Import Store.
Context `{Builtins}.

(** Content that decodes as a JPEG, PNG or WEBP image is stored as soon as
    one of the drawn names is free: [save_upload_image] returns a name made
    of a drawn value and the extension of the decoded format, whatever the
    client called the file, and the upload directory holds the bytes under
    that name. *)
Theorem save_upload_image_accepts file_storage draws fls fmt hex :
  pil_probe (stream file_storage) = inr (Some fmt) ->
  upper fmt ∈ ["JPEG"; "PNG"; "WEBP"] ->
  hex ∈ draws ->
  (forall ext, ext ∈ [".jpg"; ".png"; ".webp"] -> fls !! (hex +:+ ext) = None) ->
  exists fn draws' ext drawn,
    save_upload_image file_storage draws fls
      = (Returns fn, draws', <[fn := stream file_storage]> fls) /\
    fn = drawn +:+ ext /\ drawn ∈ draws /\
    (upper fmt = "JPEG" /\ ext = ".jpg" \/
     upper fmt = "PNG" /\ ext = ".png" \/
     upper fmt = "WEBP" /\ ext = ".webp").
Proof.
  intros Hprobe Hfmt Hhex Hfree.
  assert (exists ext, _sniff_and_get_ext file_storage = inr ext /\
            ext ∈ [".jpg"; ".png"; ".webp"] /\
            (upper fmt = "JPEG" /\ ext = ".jpg" \/
             upper fmt = "PNG" /\ ext = ".png" \/
             upper fmt = "WEBP" /\ ext = ".webp")) as (ext & Hsniff & Hext & Hcases).
  { unfold _sniff_and_get_ext. rewrite Hprobe. simpl.
    repeat case_bool_decide; try (eexists; split; [done|]; split; [set_solver|]; by auto).
    set_solver. }
  destruct (unused_name_total ext fls draws) as [[fn rest] Hname].
  { exists hex. split; [done|]. by apply Hfree. }
  destruct (unused_name_spec _ _ _ _ _ Hname) as (_ & taken & drawn & -> & -> & _).
  exists (drawn +:+ ext), rest, ext, drawn.
  unfold save_upload_image. rewrite Hsniff, Hname.
  rewrite bool_decide_eq_true_2 by (unfold ALLOWED_IMAGE_EXTS; set_solver).
  split_and!; [done|done|set_solver|done].
Qed.

End more_intake_facts.

Section more_text_facts.
Context `{UnicodeLaws}.

Lemma lstrip_remove_spaces s : lstrip (remove_spaces s) = remove_spaces (lstrip s).
Proof.
  unfold remove_spaces. induction s as [|c s IH]; [done|].
  rewrite filter_cons. destruct (decide (c = 32%N)) as [->|Hne].
  - rewrite decide_False by (by intros []). simpl. by rewrite space_is_space.
  - rewrite decide_True by done. simpl.
    destruct (isspace_cp c); [done|]. by rewrite filter_cons, decide_True.
Qed.

Lemma strip_remove_spaces s : strip (remove_spaces s) = remove_spaces (strip s).
Proof.
  unfold strip, rstrip. rewrite lstrip_remove_spaces.
  unfold remove_spaces at 1. rewrite <- filter_reverse.
  fold (remove_spaces (reverse (lstrip s))). rewrite lstrip_remove_spaces.
  unfold remove_spaces. by rewrite filter_reverse.
Qed.

(** Spaces do not matter to [normalize_whatsapp], wherever they are: the
    number with all its spaces taken out normalizes to the same string. *)
Theorem normalize_whatsapp_ignores_spaces (s : str) :
  normalize_whatsapp (remove_spaces s) = normalize_whatsapp s.
Proof.
  unfold normalize_whatsapp. rewrite strip_remove_spaces.
  assert (remove_spaces (remove_spaces (strip s)) = remove_spaces (strip s)) as ->; [|done].
  unfold remove_spaces. rewrite list_filter_filter. apply list_filter_iff. naive_solver.
Qed.

End more_text_facts.

(** * Further properties of the migrations *)

Section more_migration_facts.
Import Migration MigrationFacts.

Lemma create_table_rerun name cols s s' :
  create_table_if_not_exists name cols s = Ok s' ->
  is_Some (tables s' !! name) /\ indexes s' = indexes s.
Proof.
  unfold create_table_if_not_exists.
  destruct (tables s !! name) eqn:Ht; [intros [= <-]; by rewrite Ht|].
  destruct (indexes s !! name); [done|]. intros [= <-]. simpl.
  by rewrite lookup_insert_eq.
Qed.

Lemma create_table_present name cols s :
  is_Some (tables s !! name) -> create_table_if_not_exists name cols s = Ok s.
Proof. intros [tcols Ht]. unfold create_table_if_not_exists. by rewrite Ht. Qed.

Lemma create_index_rerun name table cols uniq s s' :
  create_index_if_not_exists name table cols uniq s = Ok s' ->
  tables s' = tables s /\ create_index_if_not_exists name table cols uniq s' = Ok s'.
Proof.
  unfold create_index_if_not_exists.
  destruct (tables s !! table) as [tcols|] eqn:Ht; [|done].
  destruct (tables s !! name) eqn:Hn; [done|].
  destruct (indexes s !! name) eqn:Hi.
  - intros [= <-]. by rewrite Ht, Hn, Hi.
  - case_match; [|done]. intros [= <-]. simpl. rewrite Ht, Hn.
    by rewrite lookup_insert_eq.
Qed.

Lemma table_then_index_rerun tname tcols iname icols uniq s s' :
  create_table_if_not_exists tname tcols s
    >>= create_index_if_not_exists iname tname icols uniq = Ok s' ->
  create_table_if_not_exists tname tcols s'
    >>= create_index_if_not_exists iname tname icols uniq = Ok s'.
Proof.
  destruct (create_table_if_not_exists tname tcols s) as [s1|e s1] eqn:Htable; [|done].
  simpl. intros Hindex.
  apply create_table_rerun in Htable as [Hpresent _].
  apply create_index_rerun in Hindex as [Htables Hagain].
  rewrite create_table_present by (by rewrite Htables). done.
Qed.

(** Each of the four migration actions is safe to run again: on the state
    it returned with, it returns again and changes nothing, without any help
    from the ledger. *)
Theorem migration_actions_rerun version fn s s' :
  (version, fn) ∈ steps -> fn s = Ok s' -> fn s' = Ok s'.
Proof.
  unfold steps. intros Hin.
  repeat (apply elem_of_cons in Hin as [Hin|Hin]; [injection Hin as -> ->|]);
    [| | | |by apply elem_of_nil in Hin].
  - unfold migration_v1. intros Hrun.
    apply create_table_rerun in Hrun as [Hpresent _]. by apply create_table_present.
  - apply table_then_index_rerun.
  - unfold migration_v3, table_info.
    case_bool_decide as Hcol.
    + simpl. intros Hrun. apply create_index_rerun in Hrun as [Htables Hagain].
      rewrite Htables. by rewrite bool_decide_eq_true_2.
    + destruct (alter_table_add_column "products" "seller_id" s) as [s1|e s1] eqn:Halter;
        [|done].
      simpl. intros Hrun. apply create_index_rerun in Hrun as [Htables Hagain].
      unfold alter_table_add_column in Halter.
      destruct (tables s !! "products") as [tcols|]; [|done].
      case_bool_decide; [done|]. simplify_eq. simpl in Htables.
      rewrite Htables, lookup_insert_eq. simpl.
      rewrite bool_decide_eq_true_2 by set_solver. done.
  - apply table_then_index_rerun.
Qed.

Lemma extends_refl s : extends s s.
Proof.
  split_and!; try done. intros name cols Hn. exists []. by rewrite app_nil_r.
Qed.

Lemma extends_trans s1 s2 s3 : extends s1 s2 -> extends s2 s3 -> extends s1 s3.
Proof.
  intros (Ht1 & Hi1 & Hl1 & Hu1) (Ht2 & Hi2 & Hl2 & Hu2). split_and!; [|by auto|by etrans|by auto].
  intros name cols Hn.
  destruct (Ht1 _ _ Hn) as (more1 & Hn1). destruct (Ht2 _ _ Hn1) as (more2 & Hn2).
  exists (more1 ++ more2). by rewrite (assoc_L (++)).
Qed.

Lemma extends_create_table name cols s :
  extends s (final (create_table_if_not_exists name cols s)).
Proof.
  unfold create_table_if_not_exists.
  destruct (tables s !! name) eqn:Hn; [apply extends_refl|].
  destruct (indexes s !! name); [apply extends_refl|]. simpl.
  split_and!; simpl; [|done| |done].
  - intros n c Hc. exists []. rewrite app_nil_r, lookup_insert_ne; [done|]. congruence.
  - unfold recorded. simpl. case_bool_decide as Hledger.
    + subst name. rewrite Hn. apply prefix_nil.
    + by rewrite lookup_insert_ne.
Qed.

Lemma extends_create_index name table cols uniq s :
  extends s (final (create_index_if_not_exists name table cols uniq s)).
Proof.
  unfold create_index_if_not_exists.
  repeat case_match; try apply extends_refl. simpl.
  split_and!; simpl; [|  |done|done].
  - intros n c Hc. exists []. by rewrite app_nil_r.
  - intros n ix Hix. rewrite lookup_insert_ne; [done|]. congruence.
Qed.

Lemma extends_alter_table table col s :
  extends s (final (alter_table_add_column table col s)).
Proof.
  unfold alter_table_add_column.
  destruct (tables s !! table) as [tcols|] eqn:Ht; [|apply extends_refl].
  case_bool_decide; [apply extends_refl|]. simpl.
  split_and!; simpl; [|done| |done].
  - intros n c Hc. destruct (decide (n = table)) as [->|Hne].
    + exists [col]. rewrite lookup_insert_eq. congruence.
    + exists []. by rewrite app_nil_r, lookup_insert_ne.
  - unfold recorded. simpl. destruct (decide (table = "schema_migrations")) as [->|Hne].
    + by rewrite lookup_insert_eq, Ht.
    + by rewrite lookup_insert_ne.
Qed.

Lemma extends_insert_version version s :
  extends s (final (insert_version version s)).
Proof.
  unfold insert_version, applied_versions.
  destruct (tables s !! "schema_migrations") as [cols|] eqn:Ht; [|apply extends_refl].
  case_bool_decide; [|apply extends_refl].
  case_bool_decide; [apply extends_refl|]. simpl.
  split_and!; simpl; [|done| |done].
  - intros n c Hc. exists []. by rewrite app_nil_r.
  - unfold recorded. simpl. rewrite Ht. by apply prefix_app_r.
Qed.

Lemma extends_bind (f g : state -> run) s :
  extends s (final (f s)) -> (forall s1, extends s1 (final (g s1))) ->
  extends s (final (f s >>= g)).
Proof.
  intros Hf Hg. destruct (f s) as [s1|e s1]; simpl in *; [|done].
  by eapply extends_trans.
Qed.

Lemma extends_steps : Forall (fun c => forall s, extends s (final (c.2 s))) steps.
Proof.
  unfold steps. repeat apply Forall_cons_2; [| | | |apply Forall_nil_2]; simpl; intros s.
  - apply extends_create_table.
  - apply extends_bind; [apply extends_create_table|intros; apply extends_create_index].
  - unfold migration_v3.
    apply (extends_bind
             (fun s0 => if bool_decide ("seller_id" ∈ table_info "products" s0) then Ok s0
                        else alter_table_add_column "products" "seller_id" s0) _ s);
      [|intros; apply extends_create_index].
    case_bool_decide; [apply extends_refl|apply extends_alter_table].
  - apply extends_bind; [apply extends_create_table|intros; apply extends_create_index].
Qed.

Lemma extends_apply version fn s :
  (forall s1, extends s1 (final (fn s1))) -> extends s (final (apply version fn s).1).
Proof.
  intros Hfn. unfold apply.
  destruct (applied_versions s); [apply extends_refl|].
  case_bool_decide; [apply extends_refl|].
  pose proof (Hfn s) as Hrun. destruct (fn s) as [s1|e s1]; simpl in *; [|done].
  pose proof (extends_insert_version version s1) as Hrec.
  destruct (insert_version version s1); simpl in *; by eapply extends_trans.
Qed.

Lemma extends_apply_in_order calls : forall s,
  Forall (fun c => forall s1, extends s1 (final (c.2 s1))) calls ->
  extends s (final (apply_in_order calls s).1).
Proof.
  induction calls as [|[version fn] rest IH]; intros s Hcalls; simpl; [apply extends_refl|].
  apply Forall_cons in Hcalls as [Hfn Hrest].
  pose proof (extends_apply version fn s Hfn) as Hfirst.
  destruct (apply version fn s) as [[s1|e s1] t1]; simpl in *; [|done].
  pose proof (IH s1 Hrest) as Hnext.
  destruct (apply_in_order rest s1) as [r t2]. simpl in *. by eapply extends_trans.
Qed.

(** [init_db] only adds: whether it returns or raises, the state it leaves
    has every table it found, with the columns it had, every index it
    found, the ledger rows it found as the first rows of the ledger, and the
    upload directory if there was one. *)
Theorem init_db_only_adds s : extends s (final (init_db s).1).
Proof.
  unfold init_db, init_db_with.
  assert (extends s (makedirs s)) as Hmk.
  { split_and!; try done. intros name cols Hn. exists []. by rewrite app_nil_r. }
  pose proof (extends_create_table "schema_migrations" ["version"] (makedirs s)) as Hledger.
  destruct (create_table_if_not_exists _ _ _) as [s1|e s1];
    [|by eapply extends_trans].
  pose proof (extends_apply_in_order steps s1 extends_steps) as Hsteps.
  destruct (apply_in_order steps s1) as [r t].
  change (extends s (final r)).
  eapply extends_trans; [exact Hmk|]. by eapply extends_trans.
Qed.

(** ** A run that raises *)

Lemma spares_of_keeps (fn : state -> run) :
  keeps fn -> (forall s e s1, fn s = Fail e s1 -> ready s -> ready s1 /\ ledger s1 = ledger s) ->
  spares_ledger fn.
Proof.
  intros Hok Hfail s Hready. destruct (fn s) as [s1|e s1] eqn:Hrun; simpl.
  - by destruct (Hok _ _ Hrun Hready) as (? & ? & _).
  - by eapply Hfail.
Qed.

Lemma create_table_fails name cols s e s1 :
  create_table_if_not_exists name cols s = Fail e s1 -> s1 = s.
Proof. unfold create_table_if_not_exists. repeat case_match; by intros [= _ <-]. Qed.

Lemma create_index_fails name table cols uniq s e s1 :
  create_index_if_not_exists name table cols uniq s = Fail e s1 -> s1 = s.
Proof. unfold create_index_if_not_exists. repeat case_match; by intros [= _ <-]. Qed.

Lemma alter_table_fails table col s e s1 :
  alter_table_add_column table col s = Fail e s1 -> s1 = s.
Proof. unfold alter_table_add_column. repeat case_match; by intros [= _ <-]. Qed.

Lemma spares_bind (f g : state -> run) :
  keeps f -> (forall s e s1, f s = Fail e s1 -> s1 = s) ->
  (forall s e s1, g s = Fail e s1 -> s1 = s) ->
  forall s e s1, f s >>= g = Fail e s1 -> ready s -> ready s1 /\ ledger s1 = ledger s.
Proof.
  intros Hf Hffail Hgfail s e s1 Hrun Hready.
  destruct (f s) as [s2|e2 s2] eqn:Hfs; simpl in Hrun.
  - apply Hgfail in Hrun as ->. by destruct (Hf _ _ Hfs Hready) as (? & ? & _).
  - simplify_eq. by apply Hffail in Hfs as ->.
Qed.

Lemma spares_steps : Forall (fun c => spares_ledger c.2) steps.
Proof.
  unfold steps.
  repeat apply Forall_cons_2; [| | | |apply Forall_nil_2]; simpl;
    apply spares_of_keeps;
    [apply keeps_v1| |apply keeps_v2| |apply keeps_v3| |apply keeps_v4|].
  - intros s e s1 ->%create_table_fails. done.
  - apply (spares_bind (create_table_if_not_exists _ _) (create_index_if_not_exists _ _ _ _)).
    + apply keeps_create_table.
    + intros ???. apply create_table_fails.
    + intros ???. apply create_index_fails.
  - intros s e s1. unfold migration_v3. case_bool_decide.
    + simpl. by intros ->%create_index_fails.
    + apply (spares_bind (alter_table_add_column _ _) (create_index_if_not_exists _ _ _ _)).
      * apply keeps_alter_table.
      * intros ???. apply alter_table_fails.
      * intros ???. apply create_index_fails.
  - apply (spares_bind (create_table_if_not_exists _ _) (create_index_if_not_exists _ _ _ _)).
    + apply keeps_create_table.
    + intros ???. apply create_table_fails.
    + intros ???. apply create_index_fails.
Qed.

(** An [apply] that raises has recorded nothing, and its version was not
    recorded before. *)
Lemma apply_fails version fn s e s1 t :
  spares_ledger fn -> ready s -> apply version fn s = (Fail e s1, t) ->
  ready s1 /\ ledger s1 = ledger s /\ version ∉ ledger s.
Proof.
  intros Hfn Hready. unfold apply. rewrite (ready_applied _ Hready).
  case_bool_decide as Hin; [done|].
  destruct (Hfn s Hready) as [Hr1 Hl1].
  destruct (fn s) as [s2|e2 s2]; simpl in *; [|by intros [= _ <- _]].
  unfold insert_version. rewrite (ready_applied _ Hr1), Hl1.
  by rewrite bool_decide_eq_false_2.
Qed.

Lemma apply_in_order_fails calls : forall s e s' t,
  Forall (fun c => keeps c.2) calls -> Forall (fun c => spares_ledger c.2) calls ->
  NoDup calls.*1 -> ready s ->
  apply_in_order calls s = (Fail e s', t) ->
  ready s' /\
  exists completed version rest,
    filter (fun v => v ∉ ledger s) calls.*1 = completed ++ version :: rest /\
    ledger s' = ledger s ++ completed.
Proof.
  induction calls as [|[version fn] calls IH];
    intros s e s' t Hkeeps Hspares Hnodup Hready Hrun; [done|].
  simpl in Hrun.
  apply Forall_cons in Hkeeps as [Hk Hkeeps]. apply Forall_cons in Hspares as [Hsp Hspares].
  change (((version, fn) :: calls).*1) with (version :: calls.*1) in *.
  apply NoDup_cons in Hnodup as [Hnotin Hnodup].
  rewrite filter_cons.
  destruct (apply version fn s) as [[s1|e1 s1] t1] eqn:Happly.
  - destruct (apply_in_order calls s1) as [r t2] eqn:Hrest. simplify_eq.
    destruct (apply_ok _ _ _ _ _ Hk Hready Happly) as (Hr1 & _ & Hl1 & _).
    destruct (IH _ _ _ _ Hkeeps Hspares Hnodup Hr1 Hrest)
      as (Hr' & completed & v & rest & Hpending & Hl').
    split; [done|]. rewrite filter_cons, filter_nil in Hl1.
    destruct (decide (version ∉ ledger s)) as [Hnew|Hold].
    + exists (version :: completed), v, rest. split.
      * simpl. f_equal. rewrite <- Hpending. apply filter_ext_elem.
        intros w Hw. rewrite Hl1. assert (w ≠ version) by (by intros ->). set_solver.
      * rewrite Hl', Hl1. by rewrite <- (assoc_L (++)).
    + rewrite app_nil_r in Hl1. rewrite Hl1 in *. by exists completed, v, rest.
  - simplify_eq. destruct (apply_fails _ _ _ _ _ _ Hsp Hready Happly) as (Hr1 & Hl1 & Hnew).
    split; [done|]. rewrite decide_True by done.
    exists [], version, (filter (fun v => v ∉ ledger s) calls.*1).
    split; [done|]. by rewrite app_nil_r.
Qed.

(** When [init_db] raises, the ledger says which steps were completed: it
    holds the rows it held before, followed by the first of the versions
    that were not yet recorded, in ascending order.  If the ledger table is
    usable afterwards, the step that raised is the next of those versions,
    and it is not recorded. *)
Theorem init_db_failure_records_completed s e s' t :
  init_db s = (Fail e s', t) ->
  exists completed,
    completed `prefix_of` filter (fun v => v ∉ recorded s) [1; 2; 3; 4] /\
    recorded s' = recorded s ++ completed /\
    (ready s' ->
     exists version rest,
       filter (fun v => v ∉ recorded s) [1; 2; 3; 4] = completed ++ version :: rest).
Proof.
  unfold init_db, init_db_with.
  destruct (create_table_if_not_exists _ _ _) as [s1|e1 s1] eqn:Hcreate.
  - destruct (apply_in_order steps s1) as [r t1] eqn:Hsteps. intros ?; simplify_eq.
    pose proof (create_table_rerun _ _ _ _ Hcreate) as [[cols Hpresent] _].
    apply ledger_table_created in Hcreate as [_ Hledger].
    assert (recorded s1 = ledger s1) as Hrec by (unfold recorded; by rewrite Hpresent).
    destruct (applied_versions s1) as [e0|vs] eqn:Happlied.
    + unfold steps in Hsteps. simpl in Hsteps. unfold apply in Hsteps.
      rewrite Happlied in Hsteps. simplify_eq.
      exists []. rewrite app_nil_r. split_and!; [apply prefix_nil|congruence|].
      intros Hready. by rewrite (ready_applied _ Hready) in Happlied.
    + apply applied_ready in Happlied as [Hready _].
      assert (NoDup steps.*1) as Hnodup.
      { unfold steps. simpl. repeat (constructor; [set_solver|]). constructor. }
      destruct (apply_in_order_fails steps _ _ _ _ keeps_steps spares_steps
                  Hnodup Hready Hsteps)
        as (Hready' & completed & version & rest & Hpending & Hl').
      change (steps.*1) with [1; 2; 3; 4] in Hpending. rewrite Hledger in Hpending, Hl'.
      exists completed. split_and!.
      * rewrite Hpending. by apply prefix_app_r.
      * by rewrite (ready_recorded _ Hready').
      * intros _. by exists version, rest.
  - intros ?; simplify_eq.
    assert (tables (makedirs s) !! "schema_migrations" = None) as Habsent.
    { unfold create_table_if_not_exists in Hcreate.
      by destruct (tables (makedirs s) !! "schema_migrations"). }
    apply create_table_fails in Hcreate as ->.
    exists []. rewrite app_nil_r. split_and!; [apply prefix_nil|done|].
    intros (cols & Hcols & _). congruence.
Qed.

End more_migration_facts.

(** * Worked examples on the stand-in library functions *)

Import Sample.

(** The stand-in character classes satisfy the laws. *)
Lemma sample_unicode_laws : UnicodeLaws.
Proof.
  split; try reflexivity.
  intros c. simpl. unfold Sample.ascii_digit, Sample.ascii_space.
  intros [H1 H2]%andb_prop.
  apply N.leb_le in H1, H2.
  apply orb_false_intro; apply andb_false_intro2; apply N.leb_gt; lia.
Qed.

Lemma normalize_whatsapp_idempotent_canonical_witness :
  let s := py " +92 (300) 123-4567 " in
  normalize_whatsapp (normalize_whatsapp s) = normalize_whatsapp s /\
  (Forall (fun c => isdigit_cp c = true) (normalize_whatsapp s) \/
   exists rest, normalize_whatsapp s = 43%N :: rest /\
                Forall (fun c => isdigit_cp c = true) rest).
Proof.
  intros s.
  exact (normalize_whatsapp_idempotent_canonical (H0 := sample_unicode_laws) s).
Defined.

Import Store.


Lemma save_upload_image_fresh_name_witness :
  let fls : gmap string bytes := {["aa.jpg" := png_bytes]} in
  fls !! "bb.jpg" = None /\
  <["bb.jpg" := jpeg_bytes]> fls = <["bb.jpg" := jpeg_bytes]> fls /\
  (forall k, is_Some (fls !! k) ->
     <["bb.jpg" := jpeg_bytes]> fls !! k = fls !! k) /\
  exists ext taken hex,
    _sniff_and_get_ext (upload "a.jpg" jpeg_bytes) = inr ext /\
    ["aa"; "bb"; "cc"] = taken ++ hex :: ["cc"] /\ "bb.jpg" = hex +:+ ext /\
    Forall (fun h => is_Some (fls !! (h +:+ ext))) taken.
Proof.
  intros fls.
  apply (save_upload_image_fresh_name (upload "a.jpg" jpeg_bytes) ["aa"; "bb"; "cc"] fls).
  vm_compute. reflexivity.
Defined.

Lemma create_product_malformed_witness :
  let form := {| pf_name := Some (py "Lamp"); pf_details := None; pf_price := Some (py "19") |} in
  exists r,
    create_product (Some 1) form three_uploads (py "t") names shop = (r, shop) /\
    validation_failure r /\ create_status r = Some 400.
Proof.
  intros form.
  apply (create_product_malformed (Some 1) 1 form three_uploads (py "t") names shop).
  - reflexivity.
  - right. left. reflexivity.
Defined.

Lemma sellers_register_duplicate_conflict_witness :
  let again :=
    {| sf_name := Some (py "Bilal"); sf_whatsapp := Some (py "+923001234567");
       sf_pin := Some (py "9999") |} in
  sellers_register again (py "2024-02-02T00:00:00Z") (py "h:9999") None (db shop)
    = (RegConflict, None, db shop) /\
  {| s_id := 1; s_name := py "Ali Khan"; s_whatsapp := py "+923001234567";
     s_pin_hash := py "h:1234"; s_created_at := py "2024-01-01T00:00:00Z" |}
    ∈ sellers (db shop).
Proof.
  intros again.
  apply (sellers_register_duplicate_conflict
           ali (py "2024-01-01T00:00:00Z") (py "h:1234") None empty_database
           1 (py "Ali Khan") (py "+923001234567") (py "2024-01-01T00:00:00Z")
           (Some 1) (db shop) (db shop) again).
  - vm_compute. reflexivity.
  - intros row Hrow. exact Hrow.
  - vm_compute. reflexivity.
  - vm_compute. repeat split; discriminate.
Defined.

Lemma create_product_keeps_image_order_witness :
  exists view w',
    create_product (Some 1) lamp three_uploads (py "t") names shop = (Created view, w') /\
    Forall2 (stored_as w')
      (filter (fun r => i_product_id r = v_id view) (product_images (db w')))
      [(0, upload "a.jpg" jpeg_bytes); (2, upload "c.jpg" png_bytes)] /\
    view ∈ list_products (db w').
Proof.
  eexists _, _. split; [vm_compute; reflexivity|].
  edestruct (create_product_keeps_image_order
               (Some 1) lamp three_uploads (py "t") names shop)
    as (Hrows & _ & Hlisted & _).
  - intros r Hr. by apply elem_of_nil in Hr.
  - vm_compute. reflexivity.
  - split; [exact Hrows|exact Hlisted].
Defined.

(** The server after seller 1 registered and created a product. *)
Lemma reachable_sellers_exist_witness :
  sellers_exist
    (db (create_product (Some 1) lamp three_uploads (py "t") names shop).2).
Proof.
  apply (reachable_sellers_exist
           {| sys_world := (create_product (Some 1) lamp three_uploads (py "t") names shop).2;
              sys_cookies := issue (Some 1) (issue (Some 1) []) |}).
  unfold reachable.
  eapply rtc_l.
  { apply (step_request initial
             (Register ali (py "2024-01-01T00:00:00Z") (py "h:1234")) None (Some 1) shop).
    - intros seller_id Hsession. discriminate Hsession.
    - vm_compute. reflexivity. }
  eapply rtc_l; [|apply rtc_refl].
  apply (step_request {| sys_world := shop; sys_cookies := issue (Some 1) [] |}
           (CreateProduct lamp three_uploads (py "t") names) (Some 1) (Some 1)).
  - intros seller_id [= <-]. simpl. by left.
  - reflexivity.
Defined.

(** C1 fails on the code.  Seller 1 sends four uploads named [.jpg]; the
    third holds text, which the decoder refuses with
    [UnidentifiedImageError].  That is not a [ValueError], so the handler's
    cleanup does not run: the exception leaves the handler, the product row
    that was committed before the loop is still in the table (with no image
    rows), and the two files written before the failure are still in the
    upload directory. *)
Theorem create_product_undecodable_upload_not_rolled_back :
  let r := create_product (Some 1) lamp four_uploads (py "t") names shop in
  r.1 = Unhandled UnidentifiedImageError /\
  products (db shop) = [] /\
  p_id <$> products (db r.2) = [1] /\
  product_images (db r.2) = [] /\
  files shop = ∅ /\
  files r.2 !! "aa.jpg" = Some jpeg_bytes /\
  files r.2 !! "bb.png" = Some png_bytes.
Proof. vm_compute. repeat split; reflexivity. Qed.

(** The same call with a GIF as third upload: the decoder returns a format
    outside the list, [_sniff_and_get_ext] raises [ValueError], and the
    cleanup leaves no row and no file. *)
Example create_product_unsupported_format_rolled_back :
  let uploads :=
    [upload "a.jpg" jpeg_bytes; upload "b.jpg" png_bytes;
     upload "c.jpg" gif_bytes; upload "d.jpg" jpeg_bytes] in
  let r := create_product (Some 1) lamp uploads (py "t") names shop in
  r.1 = ImageRejected "Unsupported image format" /\
  products (db r.2) = [] /\ product_images (db r.2) = [] /\ files r.2 = ∅.
Proof. vm_compute. repeat split; reflexivity. Qed.

(** ** The further properties, on the same examples *)

Lemma shop_reachable : reachable shop_sys.
Proof.
  unfold reachable.
  eapply rtc_l; [|apply rtc_refl].
  apply (step_request initial
           (Register ali (py "2024-01-01T00:00:00Z") (py "h:1234")) None (Some 1) shop).
  - intros seller_id Hsession. discriminate Hsession.
  - vm_compute. reflexivity.
Qed.

Lemma shop_stocked : rtc step shop_sys stocked_sys.
Proof.
  eapply rtc_l; [|apply rtc_refl].
  apply (step_request shop_sys
           (CreateProduct lamp three_uploads (py "t") names) (Some 1) (Some 1)).
  - intros seller_id [= <-]. simpl. by left.
  - reflexivity.
Qed.

Lemma stocked_reachable : reachable stocked_sys.
Proof. exact (later_reachable _ _ shop_reachable shop_stocked). Qed.

Lemma ali_row_stored : ali_row ∈ sellers (db shop).
Proof. vm_compute. by left. Qed.

Lemma lamp_row_stored : lamp_row ∈ products (db stocked).
Proof. vm_compute. by left. Qed.

Lemma lamp_image_stored : lamp_image ∈ product_images (db stocked).
Proof. vm_compute. right. by left. Qed.

Lemma delete_product_owner_only_witness :
  let out := delete_product (Some 2) 1 stocked in
  (out.1 = DelOk /\
   exists seller_id row,
     logged_in (Some 2) = Some seller_id /\ row ∈ products (db stocked) /\
     p_id row = 1 /\ p_seller_id row = Some seller_id) \/
  (out.1 ≠ DelOk /\ out.2 = stocked).
Proof.
  intros out.
  apply (delete_product_owner_only (Some 2) 1 stocked out.1 out.2).
  vm_compute. reflexivity.
Defined.

Lemma delete_product_cascades_witness :
  let w' := (delete_product (Some 1) 1 stocked).2 in
  sellers (db w') = sellers (db stocked) /\
  products (db w') = filter (fun p => p_id p ≠ 1) (products (db stocked)) /\
  product_images (db w') =
    filter (fun r => i_product_id r ≠ 1) (product_images (db stocked)) /\
  (forall k, files w' !! k =
     if bool_decide (k ∈ i_filename <$> filter (fun r => i_product_id r = 1)
                                           (product_images (db stocked)))
     then None else files stocked !! k).
Proof.
  intros w'.
  apply (delete_product_cascades (Some 1) 1 stocked w').
  vm_compute. reflexivity.
Defined.


Lemma reachable_sellers_valid_witness :
  2 <= len (s_name ali_row) <= 60 /\ len (s_whatsapp ali_row) >= 10 /\
  canonical (s_whatsapp ali_row).
Proof. exact (reachable_sellers_valid shop_sys ali_row shop_reachable ali_row_stored). Defined.

Lemma reachable_products_valid_witness :
  p_name lamp_row ≠ [] /\ p_details lamp_row ≠ [] /\ float_lt0 (p_price lamp_row) = false /\
  exists seller_id, p_seller_id lamp_row = Some seller_id /\ seller_id ≠ 0.
Proof.
  exact (reachable_products_valid stocked_sys lamp_row stocked_reachable lamp_row_stored).
Defined.

Lemma reachable_at_most_five_images_witness :
  (length (filter (fun r => i_product_id r = 1%Z) (product_images (db stocked))) <= 5)%nat.
Proof. exact (reachable_at_most_five_images stocked_sys 1 stocked_reachable). Defined.


Lemma reachable_listing_names_seller_witness :
  exists s, s ∈ sellers (db stocked) /\
    v_seller_id lamp_view = Some (s_id s) /\
    v_seller lamp_view = Some (s_id s, Some (s_name s), Some (s_whatsapp s)).
Proof.
  apply (reachable_listing_names_seller stocked_sys lamp_view stocked_reachable).
  vm_compute. by left.
Defined.

Lemma reachable_session_resolves_witness :
  exists row, row ∈ sellers (db stocked) /\ s_id row = 1 /\
    sellers_me (Some 1) (db stocked)
      = MeOk 1 (s_name row) (s_whatsapp row) (s_created_at row).
Proof.
  apply (reachable_session_resolves stocked_sys 1 stocked_reachable).
  by left.
Defined.

Lemma register_then_me_witness :
  sellers_me (Some 1) (db shop)
    = MeOk 1 (py "Ali Khan") (py "+923001234567") (py "2024-01-01T00:00:00Z").
Proof.
  apply (register_then_me ali (py "2024-01-01T00:00:00Z") (py "h:1234") None empty_database).
  - reflexivity.
  - vm_compute. reflexivity.
Defined.

Lemma sellers_login_sound_witness :
  let out := sellers_login ali None (db shop) in
  (exists row,
     row ∈ sellers (db shop) /\
     s_whatsapp row = normalize_whatsapp (default [] (sf_whatsapp ali)) /\
     check_password_hash (s_pin_hash row) (strip (default [] (sf_pin ali))) = true /\
     out.1 = LoginOk (s_id row) (s_name row) (s_whatsapp row) (s_created_at row) /\
     out.2 = Some (s_id row)) \/
  ((out.1 = LoginBadRequest \/ out.1 = LoginInvalidCredentials) /\ out.2 = None).
Proof.
  intros out.
  apply (sellers_login_sound ali None (db shop) out.1 out.2).
  vm_compute. reflexivity.
Defined.

Lemma register_then_login_witness :
  let data :=
    {| sf_name := None; sf_whatsapp := Some (py "+92 300 1234567");
       sf_pin := Some (py " 1234 ") |} in
  sellers_login data None (db shop)
    = (LoginOk 1 (py "Ali Khan") (py "+923001234567") (py "2024-01-01T00:00:00Z"), Some 1).
Proof.
  intros data.
  apply (register_then_login ali (py "2024-01-01T00:00:00Z") (py "h:1234") None
           empty_database 1 (py "Ali Khan") (py "+923001234567")
           (py "2024-01-01T00:00:00Z") (Some 1) (db shop) data None).
  - vm_compute. reflexivity.
  - vm_compute. reflexivity.
  - vm_compute. discriminate.
  - vm_compute. reflexivity.
Defined.

Lemma create_product_value_error_rolls_back_witness :
  let uploads := [upload "a.jpg" jpeg_bytes; upload "b.jpg" gif_bytes] in
  let w' := (create_product (Some 1) lamp uploads (py "t") names stocked).2 in
  sellers (db w') = sellers (db stocked) /\
  products (db w') = products (db stocked) /\
  product_images (db w') = product_images (db stocked) /\
  files w' = files stocked.
Proof.
  intros uploads w'.
  apply (create_product_value_error_rolls_back
           (Some 1) lamp uploads (py "t") names stocked "Unsupported image format" w').
  - intros r. exact (reachable_images_have_product stocked_sys stocked_reachable r).
  - vm_compute. reflexivity.
Defined.

Lemma reachable_images_belong_to_products_witness :
  i_product_id lamp_image ∈ p_id <$> products (db stocked).
Proof.
  exact (reachable_images_belong_to_products stocked_sys lamp_image
           stocked_reachable lamp_image_stored).
Defined.

Lemma seller_rows_stay_witness : ali_row ∈ sellers (db stocked).
Proof. exact (seller_rows_stay shop_sys stocked_sys ali_row shop_stocked ali_row_stored). Defined.

Lemma create_product_keeps_existing_files_witness :
  files (create_product (Some 1) lamp four_uploads (py "t") names stocked).2 !! "aa.jpg"
    = Some jpeg_bytes.
Proof.
  apply (create_product_keeps_existing_files
           (Some 1) lamp four_uploads (py "t") names stocked
           (create_product (Some 1) lamp four_uploads (py "t") names stocked).1).
  - vm_compute. reflexivity.
  - vm_compute. reflexivity.
Defined.

Lemma create_then_delete_witness :
  let out := create_product (Some 1) lamp three_uploads (py "t") names shop in
  exists w2,
    delete_product (Some 1) 1 out.2 = (DelOk, w2) /\
    sellers (db w2) = sellers (db shop) /\
    products (db w2) = products (db shop) /\
    product_images (db w2) = product_images (db shop) /\
    files w2 = files shop.
Proof.
  intros out.
  apply (create_then_delete (Some 1) lamp three_uploads (py "t") names shop
           lamp_view out.2).
  - intros r Hr. by apply elem_of_nil in Hr.
  - vm_compute. reflexivity.
Defined.

Lemma save_upload_image_accepts_witness :
  exists fn draws' ext drawn,
    save_upload_image (upload "photo.gif" png_bytes) names ∅
      = (Returns fn, draws', <[fn := png_bytes]> ∅) /\
    fn = drawn +:+ ext /\ drawn ∈ names /\
    (upper "PNG" = "JPEG" /\ ext = ".jpg" \/
     upper "PNG" = "PNG" /\ ext = ".png" \/
     upper "PNG" = "WEBP" /\ ext = ".webp").
Proof.
  apply (save_upload_image_accepts (upload "photo.gif" png_bytes) names ∅ "PNG" "aa").
  - reflexivity.
  - vm_compute. right. by left.
  - by left.
  - intros ext _. apply lookup_empty.
Defined.

Lemma normalize_whatsapp_ignores_spaces_witness :
  normalize_whatsapp (remove_spaces (py " +92 300 1234567 "))
    = normalize_whatsapp (py " +92 300 1234567 ").
Proof.
  exact (normalize_whatsapp_ignores_spaces (H0 := sample_unicode_laws)
           (py " +92 300 1234567 ")).
Defined.

Lemma migration_actions_rerun_witness :
  let s := Migration.final (Migration.migration_v1 Migration.fresh) in
  let s' := Migration.final (Migration.migration_v3 s) in
  Migration.migration_v3 s' = Migration.Ok s'.
Proof.
  intros s s'.
  apply (migration_actions_rerun 3 Migration.migration_v3 s s').
  - vm_compute. do 2 right. by left.
  - vm_compute. reflexivity.
Defined.

Lemma init_db_failure_records_completed_witness :
  let s' := Migration.final (Migration.init_db clashing).1 in
  exists completed,
    completed `prefix_of` filter (fun v => v ∉ Migration.recorded clashing) [1; 2; 3; 4] /\
    Migration.recorded s' = Migration.recorded clashing ++ completed /\
    (Migration.ready s' ->
     exists version rest,
       filter (fun v => v ∉ Migration.recorded clashing) [1; 2; 3; 4]
         = completed ++ version :: rest).
Proof.
  intros s'.
  apply (init_db_failure_records_completed clashing
           (OperationalError "there is already a table with that name") s'
           (Migration.init_db clashing).2).
  vm_compute. reflexivity.
Defined.
